(** * GitHub comment scripts and package build task of govuk-frontend

    A shallow embedding of
    - [.github/workflows/scripts/comments.mjs]: [commentDiffs], [commentDiff],
      [comment], [renderCommentFooter], [renderTable], [githubActionRunUrl];
    - the earlier version of that script kept with the sources: its
      [comment] ([Legacy.comment]);
    - [packages/govuk-frontend/tasks/build/package.mjs]: the build package task.

    JavaScript strings are [string], arrays are [list], [number]s that hold
    identifiers are [Z], [undefined] is [None].  The collaborators the scripts
    talk to (the file system, the process environment, the GitHub REST
    client) are a [World]; an [async function] is a tree of steps on the
    world, run alone by [run] or interleaved with others by [allSettled]. *)

From Stdlib Require Import String Ascii List ZArith NArith Bool Lia Arith.
From Stdlib Require Import DecimalString Permutation.
Import ListNotations.

Set Warnings "-register-all".

Local Open Scope list_scope.
Local Open Scope string_scope.

(** ** JavaScript strings and arrays *)

Module Js.

(** The line feed written [\n] in the source. *)
Definition nl : string := String (ascii_of_nat 10) EmptyString.

(** [haystack.includes(needle)] *)
Fixpoint includes (haystack needle : string) : bool :=
  String.prefix needle haystack ||
  match haystack with
  | EmptyString => false
  | String _ rest => includes rest needle
  end.

(** [array.join(separator)] on an array of strings *)
Definition join (separator : string) (array : list string) : string :=
  String.concat separator array.

(** [Array(n).fill(value)] *)
Definition Array_fill {A} (n : nat) (value : A) : list A := repeat value n.

(** [array.every(predicate)], [array.some(predicate)], [array.find(predicate)] *)
Definition every {A} (p : A -> bool) (array : list A) : bool := forallb p array.
Definition some {A} (p : A -> bool) (array : list A) : bool := existsb p array.
Definition find {A} (p : A -> bool) (array : list A) : option A := List.find p array.

(** A [number] that holds a natural number, inside a template literal: all
    its digits, which is what JavaScript prints below [1e21], where the
    identifiers GitHub hands out are; from there on JavaScript prints an
    exponent. *)
Definition Number_toString (n : N) : string :=
  NilZero.string_of_uint (N.to_uint n).

(** A possibly undefined string inside a template literal *)
Definition template (value : option string) : string :=
  match value with
  | Some s => s
  | None => "undefined"
  end.

(** Number of occurrences of a character, used to count lines. *)
Fixpoint count_char (c : ascii) (s : string) : nat :=
  match s with
  | EmptyString => 0
  | String d rest => (if Ascii.eqb c d then 1 else 0) + count_char c rest
  end.

End Js.

(** ** Errors and promise results *)

(** [PromiseSettledResult]: the value of a fulfilled promise is [undefined]
    for every promise the scripts settle, so only the reason is kept. *)
Inductive Settled (E : Type) : Type :=
| fulfilled
| rejected (reason : E).
Arguments fulfilled {E}.
Arguments rejected {E} reason.

(** [issueParameters], the object spread into every request. *)
Module IssueParams.
Record t := {
  issue_number : Z;
  owner : string;
  repo : string
}.
End IssueParams.

(** Requests made on the file system and on the GitHub client; a page of
    the comment listing is one request. *)
Inductive Call :=
| ReadFile (path : string)
| ListComments (p : IssueParams.t) (page : nat)
| CreateComment (p : IssueParams.t) (body : string)
| UpdateComment (p : IssueParams.t) (body : string) (comment_id : Z).

(** What a rejected promise carries. *)
Inductive Error :=
| FsError (path : string)
| RequestError (call : Call)
| JsError (message : string) (cause : option (list (Settled Error))).

Inductive Result (A : Type) : Type :=
| Ok (value : A)
| Throw (e : Error).
Arguments Ok {A} value.
Arguments Throw {A} e.

Definition is_rejected {E} (r : Settled E) : bool :=
  match r with
  | rejected _ => true
  | fulfilled => false
  end.

(** ** renderTable *)

Definition renderTable (headers : list string) (rows : list (list string))
  : Result string :=
  if negb (Js.every (fun row => Nat.eqb (length row) (length headers)) rows)
  then
    Throw (JsError
      "All rows must have the same number of elements as the headers." None)
  else
    let headerRow := "| " ++ Js.join " | " headers ++ " |" in
    let headerSeparator :=
      "| " ++ Js.join " | " (Js.Array_fill (length headers) "---") ++ " |" in
    let rowStrings :=
      map (fun row => "| " ++ Js.join " | " row ++ " |") rows in
    Ok (Js.join Js.nl (headerRow :: headerSeparator :: rowStrings) ++ Js.nl).


(** ** The collaborators *)

(** A comment as the listing returns it; [body] is optional in the REST
    schema, hence the [?.] of the source. *)
Module IssueComment.
Record t := {
  issue : Z;
  id : Z;
  body : option string
}.
End IssueComment.

(** The world the scripts run in.
    - [files]: what [readFile(path, 'utf8')] resolves to; [None] rejects.
    - [GITHUB_RUN_ATTEMPT]: the entry of [process.env].
    - [comments], [next_id]: the issue comments of the repository, oldest
      first, and the identifier the next created comment receives.
    - [paginate]: how the client splits a listing into pages.
    - [faults]: for each coming request on the client, whether it rejects
      (a network or API error); an exhausted list means no more rejections.
    - [log]: every request made so far, oldest first. *)
Record World := {
  files : string -> option string;
  GITHUB_RUN_ATTEMPT : option string;
  comments : list IssueComment.t;
  next_id : Z;
  paginate : list IssueComment.t -> list (list IssueComment.t);
  faults : list bool;
  log : list Call
}.

Definition with_log (l : list Call) (w : World) : World :=
  {| files := files w; GITHUB_RUN_ATTEMPT := GITHUB_RUN_ATTEMPT w;
     comments := comments w; next_id := next_id w; paginate := paginate w;
     faults := faults w; log := l |}.

Definition with_faults (f : list bool) (w : World) : World :=
  {| files := files w; GITHUB_RUN_ATTEMPT := GITHUB_RUN_ATTEMPT w;
     comments := comments w; next_id := next_id w; paginate := paginate w;
     faults := f; log := log w |}.

Definition with_comments (cs : list IssueComment.t) (n : Z) (w : World)
  : World :=
  {| files := files w; GITHUB_RUN_ATTEMPT := GITHUB_RUN_ATTEMPT w;
     comments := cs; next_id := n; paginate := paginate w;
     faults := faults w; log := log w |}.

(** ** Asynchronous functions *)

(** One step on the collaborators (a file read, a request): its outcome and
    the world it leaves. *)
Definition Async (A : Type) : Type := World -> Result A * World.

(** An [async function] in progress: it has settled, or it waits for one
    step and goes on with the outcome.  Between two steps of one function
    the event loop may run steps of others. *)
Inductive Prog (A : Type) : Type :=
| Done (r : Result A)
| Step {X : Type} (op : Async X) (k : Result X -> Prog A).
Arguments Done {A} r.
Arguments Step {A X} op k.

Definition ret {A} (a : A) : Prog A := Done (Ok a).

Definition throw {A} (e : Error) : Prog A := Done (Throw e).

(** [await op] *)
Definition await {A} (op : Async A) : Prog A := Step op Done.

(** [m] followed by the rest of the function; an exception ends it. *)
Fixpoint bind {A B} (m : Prog A) (k : A -> Prog B) : Prog B :=
  match m with
  | Done (Ok a) => k a
  | Done (Throw e) => Done (Throw e)
  | Step op k' => Step op (fun r => bind (k' r) k)
  end.

(** [try { m } catch { handler }] *)
Fixpoint try_catch {A} (m : Prog A) (handler : Prog A) : Prog A :=
  match m with
  | Done (Ok a) => Done (Ok a)
  | Done (Throw _) => handler
  | Step op k => Step op (fun r => try_catch (k r) handler)
  end.

Notation "x <- m ;; k" := (bind m (fun x => k))
  (at level 61, m at next level, right associativity).
Notation "m ;; k" := (bind m (fun _ => k))
  (at level 61, right associativity).

(** The function run alone, from its first step to its last. *)
Fixpoint run {A} (m : Prog A) (w : World) : Result A * World :=
  match m with
  | Done r => (r, w)
  | Step op k => let (r, w') := op w in run (k r) w'
  end.

(** [readFile(path, 'utf8')] *)
Definition readFile (path : string) : Async string :=
  fun w =>
    let w' := with_log (log w ++ [ReadFile path])%list w in
    match files w path with
    | Some text => (Ok text, w')
    | None => (Throw (FsError path), w')
    end.

(** [process.env.GITHUB_RUN_ATTEMPT]; the source reads it without
    awaiting, here it is a step because it consults the world, which only
    adds interleavings. *)
Definition process_env_GITHUB_RUN_ATTEMPT : Async (option string) :=
  fun w => (Ok (GITHUB_RUN_ATTEMPT w), w).

(** One request on the client: logged, then rejected or not as [faults]
    says. *)
Definition request (c : Call) : Async unit :=
  fun w =>
    let w' := with_log (log w ++ [c])%list w in
    match faults w with
    | true :: rest => (Throw (RequestError c), with_faults rest w')
    | false :: rest => (Ok tt, with_faults rest w')
    | [] => (Ok tt, w')
    end.

(** [github.paginate.iterator(github.rest.issues.listComments,
    issueParameters)]: the pages the iterator will yield are those of the
    issue's listing when it is created.  The client asks for each page when
    the loop comes to it; the two agree unless a comment is created on the
    issue while the loop runs, which only a report interleaved with this
    one can do. *)
Definition listComments_pages (p : IssueParams.t)
  : Async (list (list IssueComment.t)) :=
  fun w =>
    (Ok (paginate w
           (filter (fun c => Z.eqb (IssueComment.issue c)
                                   (IssueParams.issue_number p))
                   (comments w))), w).

(** [github.rest.issues.createComment({ ...issueParameters, body })] *)
Definition createComment (p : IssueParams.t) (body : string) : Async unit :=
  fun w =>
    match request (CreateComment p body) w with
    | (Ok _, w') =>
        (Ok tt,
         with_comments
           (comments w' ++
              [{| IssueComment.issue := IssueParams.issue_number p;
                  IssueComment.id := next_id w';
                  IssueComment.body := Some body |}])%list
           (next_id w' + 1)%Z w')
    | (Throw e, w') => (Throw e, w')
    end.

Definition set_body (comment_id : Z) (body : string) (c : IssueComment.t)
  : IssueComment.t :=
  if Z.eqb (IssueComment.id c) comment_id then
    {| IssueComment.issue := IssueComment.issue c;
       IssueComment.id := IssueComment.id c;
       IssueComment.body := Some body |}
  else c.

(** [github.rest.issues.updateComment({ ...issueParameters, body, comment_id })];
    the API answers 404 for an identifier it does not know. *)
Definition updateComment (p : IssueParams.t) (body : string) (comment_id : Z)
  : Async unit :=
  fun w =>
    match request (UpdateComment p body comment_id) w with
    | (Ok _, w') =>
        if existsb (fun c => Z.eqb (IssueComment.id c) comment_id)
             (comments w')
        then
          (Ok tt, with_comments (map (set_body comment_id body) (comments w'))
                                (next_id w') w')
        else (Throw (RequestError (UpdateComment p body comment_id)), w')
    | (Throw e, w') => (Throw e, w')
    end.

(** ** comments.mjs *)

Module Repo.
Record t := {
  owner : string;
  repo : string
}.
End Repo.

Module Context.
Record t := {
  runId : N;
  repo : Repo.t
}.
End Context.

(** [GithubActionContext]; its [github] client is the [World]. *)
Module GithubActionContext.
Record t := {
  context : Context.t;
  commit : string
}.
End GithubActionContext.

Module DiffComment.
Record t := {
  path : string;
  titleText : string;
  markerText : string
}.
End DiffComment.

(** The third argument of [comment]. *)
Module CommentText.
Record t := {
  titleText : string;
  markerText : string;
  bodyText : string
}.
End CommentText.

Definition githubActionRunUrl (GITHUB_RUN_ATTEMPT : option string)
  (context : Context.t) : string :=
  let runId := Context.runId context in
  let repo := Context.repo context in
  "https://github.com/" ++ Repo.owner repo ++ "/" ++ Repo.repo repo ++
  "/actions/runs/" ++ Js.Number_toString runId ++
  "/attempts/" ++ Js.template GITHUB_RUN_ATTEMPT.

Definition renderCommentFooter (GITHUB_RUN_ATTEMPT : option string)
  (context : Context.t) (commit : string) : string :=
  "[Action run](" ++ githubActionRunUrl GITHUB_RUN_ATTEMPT context ++
  ") for " ++ commit.

(** [const marker = `<!-- ${markerText} -->`] *)
Definition marker_of (markerText : string) : string :=
  "<!-- " ++ markerText ++ " -->".

(** [const body = [...].join('\n')] *)
Definition body_of (GITHUB_RUN_ATTEMPT : option string)
  (ctx : GithubActionContext.t) (c : CommentText.t) : string :=
  Js.join Js.nl
    [ marker_of (CommentText.markerText c);
      "## " ++ CommentText.titleText c;
      CommentText.bodyText c;
      Js.nl ++ "---";
      renderCommentFooter GITHUB_RUN_ATTEMPT
        (GithubActionContext.context ctx) (GithubActionContext.commit ctx) ].

Arguments marker_of : simpl never.
Arguments body_of : simpl never.

(** [!!comment.body?.includes(marker)] *)
Definition has_marker (marker : string) (c : IssueComment.t) : bool :=
  match IssueComment.body c with
  | Some text => Js.includes text marker
  | None => false
  end.

(** The body of the [for await] loop: the new value of [commentId]. *)
Definition scan_page (marker : string) (comments : list IssueComment.t)
  (commentId : option Z) : option Z :=
  match Js.find (has_marker marker) comments with
  | Some comment => Some (IssueComment.id comment)
  | None => commentId
  end.

(** [for await (const { data: comments } of ...) { ... }]: each page is
    requested in turn; [page] counts the pages already requested. *)
Fixpoint for_await_pages (p : IssueParams.t) (marker : string) (page : nat)
  (pages : list (list IssueComment.t)) (commentId : option Z)
  : Prog (option Z) :=
  match pages with
  | [] => ret commentId
  | comments :: rest =>
      await (request (ListComments p page)) ;;
      for_await_pages p marker (S page) rest
        (scan_page marker comments commentId)
  end.

Definition comment (ctx : GithubActionContext.t) (issueNumber : Z)
  (c : CommentText.t) : Prog unit :=
  attempt <- await process_env_GITHUB_RUN_ATTEMPT ;;
  let marker := marker_of (CommentText.markerText c) in
  let body := body_of attempt ctx c in
  let issueParameters :=
    {| IssueParams.issue_number := issueNumber;
       IssueParams.owner :=
         Repo.owner (Context.repo (GithubActionContext.context ctx));
       IssueParams.repo :=
         Repo.repo (Context.repo (GithubActionContext.context ctx)) |} in
  pages <- await (listComments_pages issueParameters) ;;
  commentId <- for_await_pages issueParameters marker 0 pages None ;;
  match commentId with
  | None => await (createComment issueParameters body)
  | Some n =>
      (* [!commentId] holds of the number 0 too *)
      if Z.eqb n 0 then await (createComment issueParameters body)
      else await (updateComment issueParameters body n)
  end.

Arguments comment : simpl never.

(** The two [bodyText]s of [commentDiff]. *)
Definition diff_bodyText (diffText : string) : string :=
  "```diff" ++ Js.nl ++ (diffText ++ Js.nl) ++ "```".

Definition fallback_bodyText (GITHUB_RUN_ATTEMPT : option string)
  (ctx : GithubActionContext.t) : string :=
  "The diff could not be posted as a comment. You can download it from the [workflow artifacts](" ++
  githubActionRunUrl GITHUB_RUN_ATTEMPT (GithubActionContext.context ctx) ++
  "#artifacts).".

Definition commentDiff (ctx : GithubActionContext.t) (issueNumber : Z)
  (d : DiffComment.t) : Prog unit :=
  text <- await (readFile (DiffComment.path d)) ;;
  (* [text || 'No changes found.'] *)
  let diffText := if String.eqb text "" then "No changes found." else text in
  try_catch
    (comment ctx issueNumber
       {| CommentText.markerText := DiffComment.markerText d;
          CommentText.titleText := DiffComment.titleText d;
          CommentText.bodyText := diff_bodyText diffText |})
    (attempt <- await process_env_GITHUB_RUN_ATTEMPT ;;
     comment ctx issueNumber
       {| CommentText.markerText := DiffComment.markerText d;
          CommentText.titleText := DiffComment.titleText d;
          CommentText.bodyText := fallback_bodyText attempt ctx |}).

Arguments commentDiff : simpl never.

(** *** Promise.allSettled *)

(** The event loop lets one function take its next step. *)
Definition step (m : Prog unit) (w : World) : Prog unit * World :=
  match m with
  | Done r => (Done r, w)
  | Step op k => let (r, w') := op w in (k r, w')
  end.

(** The [i]-th of the pending functions takes its next step. *)
Fixpoint step_nth (i : nat) (pending : list (Prog unit)) (w : World)
  {struct pending} : list (Prog unit) * World :=
  match pending with
  | [] => ([], w)
  | m :: rest =>
      match i with
      | O => let (m', w') := step m w in (m' :: rest, w')
      | S j => let (rest', w') := step_nth j rest w in (m :: rest', w')
      end
  end.

(** The functions take steps in the order [schedule] names them. *)
Fixpoint interleave (schedule : list nat) (pending : list (Prog unit))
  (w : World) : list (Prog unit) * World :=
  match schedule with
  | [] => (pending, w)
  | i :: later =>
      let (pending', w') := step_nth i pending w in
      interleave later pending' w'
  end.

Definition settled (r : Result unit) : Settled Error :=
  match r with
  | Ok _ => fulfilled
  | Throw e => rejected e
  end.

(** Each function still pending is run to its end, in array order. *)
Fixpoint settle_all (pending : list (Prog unit)) (w : World)
  : list (Settled Error) * World :=
  match pending with
  | [] => ([], w)
  | m :: rest =>
      let (r, w') := run m w in
      let (results, w'') := settle_all rest w' in
      (settled r :: results, w'')
  end.

(** [Promise.allSettled(promises)]: the promised functions run interleaved,
    in the order the event loop picks, here [schedule]; none is abandoned
    because another threw; when all have settled their outcomes are
    returned in array order.  Every interleaving of the steps is the
    [schedule] that lists it; a schedule that ends early is completed by
    running what is pending in array order. *)
Definition allSettled (schedule : list nat) (promises : list (Prog unit))
  : Async (list (Settled Error)) :=
  fun w =>
    let (pending, w') := interleave schedule promises w in
    let (results, w'') := settle_all pending w' in
    (Ok results, w'').

Definition commentDiffs (schedule : list nat) (ctx : GithubActionContext.t)
  (issueNumber : Z) (diffs : list DiffComment.t) : Prog unit :=
  results <-
    await (allSettled schedule
             (map (fun diff => commentDiff ctx issueNumber diff) diffs)) ;;
  if Js.some is_rejected results then
    throw (JsError "Posting diff comment failed" (Some results))
  else ret tt.

(** ** The earlier script *)

Module Legacy.

(** [Pick<GithubActionContext, "github" | "context" | "issueNumber">] *)
Record GithubContext := {
  context : Context.t;
  issueNumber : Z
}.

(** [comment] of the earlier script: the marker token ends with a line
    feed and the body is the token followed by the text; the loop and the
    choice between creating and updating are those of today's [comment]. *)
Definition comment (g : GithubContext) (markerText bodyText : string)
  : Prog unit :=
  let marker := "<!-- " ++ markerText ++ " -->" ++ Js.nl in
  let body := marker ++ bodyText in
  let issueParameters :=
    {| IssueParams.issue_number := issueNumber g;
       IssueParams.owner := Repo.owner (Context.repo (context g));
       IssueParams.repo := Repo.repo (Context.repo (context g)) |} in
  pages <- await (listComments_pages issueParameters) ;;
  commentId <- for_await_pages issueParameters marker 0 pages None ;;
  match commentId with
  | None => await (createComment issueParameters body)
  | Some n =>
      if Z.eqb n 0 then await (createComment issueParameters body)
      else await (updateComment issueParameters body n)
  end.

Definition issueParameters_of (g : GithubContext) : IssueParams.t :=
  {| IssueParams.issue_number := issueNumber g;
     IssueParams.owner := Repo.owner (Context.repo (context g));
     IssueParams.repo := Repo.repo (Context.repo (context g)) |}.

Definition marker_of (markerText : string) : string :=
  "<!-- " ++ markerText ++ " -->" ++ Js.nl.

End Legacy.

Arguments Legacy.comment : simpl never.

(** ** tasks/build/package.mjs *)

Module Package.

(** The [options] a task function receives. *)
Record TaskOptions := {
  basePath : string;
  srcPath : string;
  destPath : string
}.

(** The third argument of [npm.script]: the literal [{ basePath }] or the
    task's own options. *)
Inductive ScriptOptions :=
| only_basePath (basePath : string)
| task_options (options : TaskOptions).

(** [join(a, b)] of [path], kept as its segments. *)
Definition join (a b : string) : list string := [a; b].

(** The tasks the build is made of; the sub-tasks imported from
    [@govuk-frontend/tasks] and [../index.mjs] are named, not unfolded. *)
Inductive Task :=
| npm_script (name : string) (args : list string) (options : ScriptOptions)
| assets (options : TaskOptions)
| fixtures (options : TaskOptions)
| scripts (options : TaskOptions)
| styles (options : TaskOptions)
| templates (options : TaskOptions)
| files_copy (pattern : string) (srcPath destPath : list string)
| task_name (displayName : string) (fn : Task)
| gulp_series (tasks : list Task).

Section Build.

(** [paths.stats] of [@govuk-frontend/config] *)
Variable paths_stats : string.

(** [export default (options) => gulp.series(...)] *)
Definition build_package (options : TaskOptions) : Task :=
  gulp_series
    [ npm_script "clean" [] (only_basePath paths_stats);
      npm_script "clean:package" [] (task_options options);

      assets options;
      fixtures options;
      scripts options;
      styles options;
      templates options;

      task_name "copy:files 'govuk-prototype-kit'"
        (files_copy "**/*.js"
           (join (srcPath options) "govuk-prototype-kit")
           (join (destPath options) "govuk-prototype-kit")) ].

End Build.

(** [gulp.series] starts its tasks one after the other and stops at the
    first that fails: the tasks started, in order, and whether all
    succeeded.  [succeeds] says how each leaf task ends. *)
Fixpoint run_series (succeeds : Task -> bool) (tasks : list Task)
  : list Task * bool :=
  match tasks with
  | [] => ([], true)
  | t :: rest =>
      if succeeds t then
        let (started, ok) := run_series succeeds rest in (t :: started, ok)
      else ([t], false)
  end.

Definition run (succeeds : Task -> bool) (t : Task) : list Task * bool :=
  match t with
  | gulp_series tasks => run_series succeeds tasks
  | _ => ([t], succeeds t)
  end.

End Package.

(** ** Notions the statements use *)

(** The comments of one issue, as the listing sees them. *)
Definition issue_comments (issueNumber : Z) (w : World)
  : list IssueComment.t :=
  filter (fun c => Z.eqb (IssueComment.issue c) issueNumber) (comments w).

(** The [issueParameters] of [comment]. *)
Definition issueParameters_of (ctx : GithubActionContext.t) (issueNumber : Z)
  : IssueParams.t :=
  {| IssueParams.issue_number := issueNumber;
     IssueParams.owner :=
       Repo.owner (Context.repo (GithubActionContext.context ctx));
     IssueParams.repo :=
       Repo.repo (Context.repo (GithubActionContext.context ctx)) |}.

(** The pages the iterator yields for an issue. *)
Definition pages_of (issueNumber : Z) (w : World)
  : list (list IssueComment.t) :=
  paginate w (issue_comments issueNumber w).

(** The last page that holds a comment with the marker, and the identifier
    of the first such comment on that page. *)
Definition last_matching_page (marker : string)
  (pages : list (list IssueComment.t)) : option (list IssueComment.t) :=
  List.find (existsb (has_marker marker)) (rev pages).

Definition last_page_match (marker : string)
  (pages : list (list IssueComment.t)) : option Z :=
  match last_matching_page marker pages with
  | Some page => option_map IssueComment.id (List.find (has_marker marker) page)
  | None => None
  end.

(** The first comment with the marker met during pagination. *)
Definition first_match (marker : string) (pages : list (list IssueComment.t))
  : option Z :=
  option_map IssueComment.id (List.find (has_marker marker) (concat pages)).

(** The requests for pages [0 .. n-1]. *)
Definition page_requests (p : IssueParams.t) (n : nat) : list Call :=
  map (ListComments p) (seq 0 n).

(** The last request made, and the body it posted if it posted one. *)
Definition last_call (w : World) : option Call :=
  List.last (map Some (log w)) None.

Definition posted_body (c : option Call) : option string :=
  match c with
  | Some (CreateComment _ body) => Some body
  | Some (UpdateComment _ body _) => Some body
  | _ => None
  end.

(** Identifiers as GitHub hands them out: non-zero, unique, and below the
    next one. *)
Definition store_ok (w : World) : Prop :=
  NoDup (map IssueComment.id (comments w)) /\
  (0 < next_id w)%Z /\
  Forall (fun c => (0 < IssueComment.id c < next_id w)%Z) (comments w).

(** Pagination loses and invents nothing. *)
Definition paginate_ok (w : World) : Prop :=
  forall l, concat (paginate w l) = l.

(** Every request on the client succeeds. *)
Definition no_faults (w : World) : Prop := faults w = [].

(** [Settles ctx n w diffs results w']: the reports of [diffs] were run one
    after the other from [w] to [w'], each to its end, and [results] holds
    their outcomes in order. *)
Inductive Settles (ctx : GithubActionContext.t) (issueNumber : Z)
  : World -> list DiffComment.t -> list (Settled Error) -> World -> Prop :=
| Settles_nil w : Settles ctx issueNumber w [] [] w
| Settles_fulfilled w d w1 diffs results w' :
    run (commentDiff ctx issueNumber d) w = (Ok tt, w1) ->
    Settles ctx issueNumber w1 diffs results w' ->
    Settles ctx issueNumber w (d :: diffs) (fulfilled :: results) w'
| Settles_rejected w d e w1 diffs results w' :
    run (commentDiff ctx issueNumber d) w = (Throw e, w1) ->
    Settles ctx issueNumber w1 diffs results w' ->
    Settles ctx issueNumber w (d :: diffs) (rejected e :: results) w'.

(** The value of [commentId] after the loop went through [pages]. *)
Definition scan_pages (marker : string) (pages : list (list IssueComment.t))
  (commentId : option Z) : option Z :=
  fold_left (fun acc comments => scan_page marker comments acc) pages commentId.

(** The request [comment] ends with, given the value of [commentId]. *)
Definition create_or_update (p : IssueParams.t) (body : string)
  (commentId : option Z) : Async unit :=
  match commentId with
  | None => createComment p body
  | Some n =>
      if Z.eqb n 0 then createComment p body else updateComment p body n
  end.

Definition create_or_update_call (p : IssueParams.t) (body : string)
  (commentId : option Z) : Call :=
  match commentId with
  | None => CreateComment p body
  | Some n => if Z.eqb n 0 then CreateComment p body else UpdateComment p body n
  end.

(** What steps leave alone: the files, the environment and the way the
    listing is paged; and the log only grows. *)
Definition same_surroundings (w w' : World) : Prop :=
  files w' = files w /\
  GITHUB_RUN_ATTEMPT w' = GITHUB_RUN_ATTEMPT w /\
  paginate w' = paginate w /\
  exists l, log w' = (log w ++ l)%list.

(** Every step the function may take is related by [R]. *)
Inductive Respects (R : World -> World -> Prop) {A : Type} : Prog A -> Prop :=
| Respects_done r : Respects R (Done r)
| Respects_step X (op : Async X) k :
    (forall w, R w (snd (op w))) ->
    (forall r, Respects R (k r)) ->
    Respects R (Step op k).

(** [m] ends as both versions of [comment] do: the loop over the pages,
    then the creation or the update. *)
Definition ends_with_upsert (m : Prog unit) (p : IssueParams.t)
  (marker body : string) (w : World) : Prop :=
  run m w =
  match run (for_await_pages p marker 0
               (pages_of (IssueParams.issue_number p) w) None) w with
  | (Ok commentId, w') => create_or_update p body commentId w'
  | (Throw e, w') => (Throw e, w')
  end.

(** A run of [m] from [w] scans all pages and then upserts: every page of
    the listing is requested, in order; the identifier the loop ends with is
    that of the first comment with the marker on the last page that holds
    one; then a comment is created when there is no such identifier or it is
    0, and the comment at that identifier is updated otherwise. *)
Definition upserts_after_full_scan (m : Prog unit) (p : IssueParams.t)
  (marker body : string) (w : World) : Prop :=
  let pages := pages_of (IssueParams.issue_number p) w in
  let listed := with_log (log w ++ page_requests p (length pages))%list w in
  scan_pages marker pages None = last_page_match marker pages /\
  run m w =
    match last_page_match marker pages with
    | None => createComment p body listed
    | Some n =>
        if Z.eqb n 0 then createComment p body listed
        else updateComment p body n listed
    end /\
  log (snd (run m w)) =
    (log w ++ page_requests p (length pages) ++
     [match last_page_match marker pages with
      | None => CreateComment p body
      | Some n =>
          if Z.eqb n 0 then CreateComment p body else UpdateComment p body n
      end])%list.

(** A run of [m] from [w] creates on the identifier 0: if the listing holds
    a comment with the marker and every such comment has identifier 0, the
    loop ends with 0 and the run creates a comment. *)
Definition creates_on_id_zero (m : Prog unit) (p : IssueParams.t)
  (marker body : string) (w : World) : Prop :=
  let pages := pages_of (IssueParams.issue_number p) w in
  (exists cm, In cm (concat pages) /\ has_marker marker cm = true) ->
  (forall cm, In cm (concat pages) -> has_marker marker cm = true ->
              IssueComment.id cm = 0%Z) ->
  scan_pages marker pages None = Some 0%Z /\
  run m w =
    createComment p body
      (with_log (log w ++ page_requests p (length pages))%list w) /\
  last_call (snd (run m w)) = Some (CreateComment p body).

(** The run ended with a request that creates a comment. *)
Definition creates (r : Result unit * World) : Prop :=
  exists p body, last_call (snd r) = Some (CreateComment p body).

(** ** Concrete runs *)

Module Samples.

Definition ctx : GithubActionContext.t :=
  {| GithubActionContext.context :=
       {| Context.runId := 42;
          Context.repo :=
            {| Repo.owner := "alphagov"; Repo.repo := "govuk-frontend" |} |};
     GithubActionContext.commit := "abc123" |}.

Definition params : IssueParams.t := issueParameters_of ctx 7.

Definition text (bodyText : string) : CommentText.t :=
  {| CommentText.titleText := "JavaScript changes";
     CommentText.markerText := "dist-diff-js";
     CommentText.bodyText := bodyText |}.

Definition marker : string := marker_of "dist-diff-js".

Definition diff (path markerText : string) : DiffComment.t :=
  {| DiffComment.path := path;
     DiffComment.titleText := "JavaScript changes";
     DiffComment.markerText := markerText |}.

Definition stored (id : Z) (body : string) : IssueComment.t :=
  {| IssueComment.issue := 7; IssueComment.id := id;
     IssueComment.body := Some body |}.

(** The file system: an empty diff, a diff with one changed line, and
    nothing else. *)
Definition disk (path : string) : option string :=
  if String.eqb path "empty.diff" then Some ""
  else if String.eqb path "js.diff" then Some "+const a = 1"
  else None.

(** Pages of [per_page] comments; the listing of an issue without comments
    is one empty page. *)
Fixpoint pages_by (fuel per_page : nat) (l : list IssueComment.t)
  : list (list IssueComment.t) :=
  match fuel, l with
  | _, [] => []
  | O, _ => [l]
  | S fuel, _ => firstn per_page l :: pages_by fuel per_page (skipn per_page l)
  end.

Definition pages (per_page : nat) (l : list IssueComment.t)
  : list (list IssueComment.t) :=
  match l with
  | [] => [[]]
  | _ => pages_by (length l) per_page l
  end.

(** A world with the given comments, the given identifier to come, pages
    of [per_page] comments and the given rejections. *)
Definition world (cs : list IssueComment.t) (next : Z) (per_page : nat)
  (rejections : list bool) : World :=
  {| files := disk;
     GITHUB_RUN_ATTEMPT := Some "1";
     comments := cs;
     next_id := next;
     paginate := pages per_page;
     faults := rejections;
     log := [] |}.

End Samples.

(** The two comments [commentDiff] may post for a descriptor. *)
Definition diff_text (d : DiffComment.t) (fenced : string) : CommentText.t :=
  {| CommentText.markerText := DiffComment.markerText d;
     CommentText.titleText := DiffComment.titleText d;
     CommentText.bodyText := fenced |}.

Definition fallback_text (GITHUB_RUN_ATTEMPT : option string)
  (ctx : GithubActionContext.t) (d : DiffComment.t) : CommentText.t :=
  {| CommentText.markerText := DiffComment.markerText d;
     CommentText.titleText := DiffComment.titleText d;
     CommentText.bodyText := fallback_bodyText GITHUB_RUN_ATTEMPT ctx |}.

(** The world once [readFile(path)] has been called. *)
Definition after_read (path : string) (w : World) : World :=
  with_log (log w ++ [ReadFile path])%list w.

(** ** commentStats *)

Module Stats.

(** [text.replace(pattern, replacement)] for string arguments and a
    replacement without [$]: the first occurrence is replaced. *)
Fixpoint drop (n : nat) (s : string) : string :=
  match n, s with
  | O, _ => s
  | S n', String _ rest => drop n' rest
  | S _, EmptyString => EmptyString
  end.

Fixpoint replace (text pattern replacement : string) : string :=
  if String.prefix pattern text then
    replacement ++ drop (String.length pattern) text
  else
    match text with
    | EmptyString => EmptyString
    | String c rest => String c (replace rest pattern replacement)
    end.

(** A [number] that holds an integer, inside a template literal: all its
    digits, as JavaScript prints them up to [1e21] in absolute value. *)
Definition Integer_toString (z : Z) : string :=
  NilZero.string_of_int (Z.to_int z).

Section CommentStats.

(** [join] of [path]. *)
Variable join : string -> string -> string.

(** [new URL(input, base)], read back as a string. *)
Variable URL : string -> string -> string.

(** [getFileSizes] of [@govuk-frontend/lib/files]. *)
Variable getFileSizes : string -> Async (list (list string)).

(** [Promise.all(modulePaths.map(getStats))] of [@govuk-frontend/stats],
    awaited: the pairs of module path and module size. *)
Variable all_getStats : Async (list (string * string)).

Definition getReviewAppUrl (prNumber : Z) (path : string) : string :=
  URL path
    ("https://govuk-frontend-pr-" ++ Integer_toString prNumber ++
     ".herokuapp.com").

(** The arrow function mapped over the stats. *)
Definition modulesRow (reviewAppURL : string) (stat : string * string)
  : list string :=
  let (modulePath, moduleSize) := stat in
  let statsPath := "docs/stats/" ++ replace modulePath "mjs" "html" in
  let statsURL := URL statsPath reviewAppURL in
  [ "[" ++ modulePath ++ "](" ++ statsURL ++ ")"; moduleSize ].

Definition commentStats (ctx : GithubActionContext.t) (issueNumber : Z)
  (d : DiffComment.t) : Prog unit :=
  let reviewAppURL := getReviewAppUrl issueNumber "/" in

  let distPath := join (DiffComment.path d) "dist" in
  let packagePath :=
    join (DiffComment.path d) "packages/govuk-frontend/dist/govuk" in

  (* File sizes *)
  let fileSizeTitle := "### File sizes" in
  rows1 <- await (getFileSizes (join distPath "**/*.{css,js,mjs}")) ;;
  rows2 <- await (getFileSizes (join packagePath "*.{css,js,mjs}")) ;;
  let fileSizeRows := (rows1 ++ rows2)%list in

  let fileSizeHeaders := ["File"; "Size"] in
  fileSizeTable <- Done (renderTable fileSizeHeaders fileSizeRows) ;;
  let fileSizeText := Js.join Js.nl [fileSizeTitle; fileSizeTable] in

  (* Module sizes *)
  let modulesTitle := "### Modules" in
  stats <- await all_getStats ;;
  let modulesRows := map (modulesRow reviewAppURL) stats in

  let modulesHeaders := ["File"; "Size"] in
  modulesTable <- Done (renderTable modulesHeaders modulesRows) ;;
  let modulesFooter :=
    "[View stats and visualisations on the review app](" ++ reviewAppURL ++
    ")" in
  let modulesText :=
    Js.join Js.nl [modulesTitle; modulesTable; modulesFooter] in

  comment ctx issueNumber
    {| CommentText.markerText := DiffComment.markerText d;
       CommentText.titleText := DiffComment.titleText d;
       CommentText.bodyText := Js.join Js.nl [fileSizeText; modulesText] |}.

End CommentStats.

End Stats.

(** ** The earlier script: commentDistDiffs *)

Module LegacyDist.

(** The [GithubActionContext] of the earlier script. *)
Record GithubActionContext := {
  context : Context.t;
  workspacePath : string;
  issueNumber : Z;
  commit : string
}.

Record Diff := {
  file : string;
  title : string;
  marker : string
}.

Definition DIST_DIFFS : list Diff :=
  [ {| file := "dist-js.diff";
       title := "JavaScript changes to `dist`";
       marker := "dist-diff-js" |};
    {| file := "dist-css.diff";
       title := "CSS changes to `dist`";
       marker := "dist-diff-css" |};
    {| file := "dist-other.diff";
       title := "Other changes to `dist`";
       marker := "dist-diff-other" |} ].

Definition githubActionArtifactsUrl (runId : N) : string :=
  "https://github.com/alphagov/govuk-frontend/actions/runs/" ++
  Js.Number_toString runId ++ "/#artifacts".

(** [{ github, context, issueNumber }] *)
Definition picked (g : GithubActionContext) : Legacy.GithubContext :=
  {| Legacy.context := context g; Legacy.issueNumber := issueNumber g |}.

(** The two texts the loop may post for a diff. *)
Definition diff_text (g : GithubActionContext) (d : Diff) (diffText : string)
  : string :=
  ("## " ++ title d ++ Js.nl) ++
  ("```diff" ++ Js.nl) ++
  (diffText ++ Js.nl) ++
  ("```" ++ Js.nl ++ Js.nl) ++
  ("SHA: " ++ commit g ++ Js.nl).

Definition fallback_text (g : GithubActionContext) (d : Diff) : string :=
  ("## " ++ title d ++ Js.nl) ++
  ("The diff could not be posted as a comment. You can download it from the [workflow artifacts](" ++
   githubActionArtifactsUrl (Context.runId (context g)) ++ ").") ++
  (Js.nl ++ Js.nl) ++
  ("SHA: " ++ commit g ++ Js.nl).

(** The body of the [for ... of] loop. *)
Definition commentDistDiff (g : GithubActionContext) (d : Diff) : Prog unit :=
  diffText <- await (readFile (workspacePath g ++ "/" ++ file d)) ;;
  try_catch
    (Legacy.comment (picked g) (marker d) (diff_text g d diffText))
    (Legacy.comment (picked g) (marker d) (fallback_text g d)).

Fixpoint for_of (g : GithubActionContext) (diffs : list Diff) : Prog unit :=
  match diffs with
  | [] => ret tt
  | d :: rest => commentDistDiff g d ;; for_of g rest
  end.

Definition commentDistDiffs (g : GithubActionContext) : Prog unit :=
  for_of g DIST_DIFFS.

End LegacyDist.

Arguments LegacyDist.commentDistDiff : simpl never.

(** ** Notions the further statements use *)

(** The issue and identifier of a stored comment. *)
Definition key (c : IssueComment.t) : Z * Z :=
  (IssueComment.issue c, IssueComment.id c).

(** No comment was removed, moved or given another issue or identifier:
    the keys after are the keys before, followed by those of the comments
    created since. *)
Definition keeps_comments (w w' : World) : Prop :=
  exists created,
    map key (comments w') = (map key (comments w) ++ created)%list.

(** The identifiers stay as GitHub hands them out. *)
Definition keeps_store_ok (w w' : World) : Prop :=
  store_ok w -> store_ok w'.

(** The comment [comment] composes and stores when it creates one. *)
Definition composed (ctx : GithubActionContext.t) (issueNumber : Z)
  (c : CommentText.t) (w : World) : IssueComment.t :=
  {| IssueComment.issue := issueNumber;
     IssueComment.id := next_id w;
     IssueComment.body := Some (body_of (GITHUB_RUN_ATTEMPT w) ctx c) |}.

(** The world after the pages of an issue were requested. *)
Definition listed (p : IssueParams.t) (w : World) : World :=
  with_log
    (log w ++
     page_requests p
       (length (pages_of (IssueParams.issue_number p) w)))%list w.

(** The report of [d] in progress as [m]: if the file of [d] cannot be
    read, the report has not begun or has thrown the error of the read. *)
Definition unread_state (ctx : GithubActionContext.t) (issueNumber : Z)
  (w : World) (d : DiffComment.t) (m : Prog unit) : Prop :=
  Respects same_surroundings m /\
  (files w (DiffComment.path d) = None ->
   m = commentDiff ctx issueNumber d \/
   m = Done (Throw (FsError (DiffComment.path d)))).

(** No line feed in the text. *)
Definition one_line (s : string) : Prop :=
  Js.count_char (ascii_of_nat 10) s = 0.

(** ** Notions the statement on commentDiffs uses *)

(** [Interleaved pending w outcomes w']: from [w], the functions in progress
    [pending] took their steps one at a time, in some order, each step on
    the world the step before left, until every one of them had settled;
    [outcomes] holds, at the place of each function, what it settled with,
    and [w'] is the world then. *)
Inductive Interleaved
  : list (Prog unit) -> World -> list (Result unit) -> World -> Prop :=
| Interleaved_settled outcomes w :
    Interleaved (map Done outcomes) w outcomes w
| Interleaved_step before X (op : Async X) k after w outcomes w' :
    Interleaved (before ++ k (fst (op w)) :: after)%list (snd (op w))
      outcomes w' ->
    Interleaved (before ++ Step op k :: after)%list w outcomes w'.

(** What a step of the scripts leaves in place: the surroundings, the
    stored comments with their issues and identifiers, and a client on
    which no request is going to be rejected. *)
Definition step_effect (w w' : World) : Prop :=
  same_surroundings w w' /\ keeps_comments w w' /\
  (no_faults w -> no_faults w').

(** The requests that post the report of [d], whose file holds [text] in
    [w]: they create or update a comment of the issue with the body composed
    from the fenced diff or from the fallback. *)
Definition posts_report (ctx : GithubActionContext.t) (issueNumber : Z)
  (w : World) (d : DiffComment.t) (text : string) (c : Call) : Prop :=
  exists posted : CommentText.t,
    (posted =
       diff_text d
         (diff_bodyText
            (if String.eqb text "" then "No changes found." else text)) \/
     posted = fallback_text (GITHUB_RUN_ATTEMPT w) ctx d) /\
    (c = CreateComment (issueParameters_of ctx issueNumber)
           (body_of (GITHUB_RUN_ATTEMPT w) ctx posted) \/
     exists comment_id,
       c = UpdateComment (issueParameters_of ctx issueNumber)
             (body_of (GITHUB_RUN_ATTEMPT w) ctx posted) comment_id).

(** What the outcome [r] of the report of [d] is tied to, in a run of
    [commentDiffs] that started in [w] and during which [calls] were made:
    if the file of [d] cannot be read the outcome is the error of that
    read; if it can, a report that returned made a request that posts it,
    and the report returns when no request is rejected and the listing is
    paged without loss. *)
Definition report_outcome (ctx : GithubActionContext.t) (issueNumber : Z)
  (w : World) (calls : list Call) (d : DiffComment.t) (r : Result unit)
  : Prop :=
  match files w (DiffComment.path d) with
  | None => r = Throw (FsError (DiffComment.path d))
  | Some text =>
      (r = Ok tt ->
       exists c, In c calls /\ posts_report ctx issueNumber w d text c) /\
      (no_faults w -> paginate_ok w -> r = Ok tt)
  end.

(** The files the calls [l] read, in order. *)
Fixpoint files_read (l : list Call) : list string :=
  match l with
  | [] => []
  | ReadFile path :: rest => path :: files_read rest
  | _ :: rest => files_read rest
  end.

(** [m], in progress, has the files [paths] to read, in that order, and
    reads no other. *)
Fixpoint reads_left (m : Prog unit) (paths : list string) : Prop :=
  match m with
  | Done _ => paths = []
  | Step op k =>
      forall w, exists l paths',
        log (snd (op w)) = (log w ++ l)%list /\
        paths = (files_read l ++ paths')%list /\
        reads_left (k (fst (op w))) paths'
  end.

(** [m], in progress in a run that started in [w0], cannot return before it
    has made a request in [Q]. *)
Fixpoint owes (Q : Call -> Prop) (w0 : World) (m : Prog unit) : Prop :=
  match m with
  | Done r => exists e, r = Throw e
  | Step op k =>
      forall w, step_effect w0 w ->
        owes Q w0 (k (fst (op w))) \/
        exists l c,
          log (snd (op w)) = (log w ++ l)%list /\ In c l /\ Q c
  end.

(** [m], in progress in [w], returns if from now on no request is rejected
    and the listing is paged without loss, whatever steps of the scripts
    come in between. *)
Fixpoint unfailing (m : Prog unit) (w : World) : Prop :=
  match m with
  | Done r => r = Ok tt
  | Step op k =>
      forall w', step_effect w w' -> no_faults w' -> paginate_ok w' ->
                 unfailing (k (fst (op w'))) (snd (op w'))
  end.

(** The report of [d] in progress as [m] in [w], in a run of [commentDiffs]
    that started in [w0]. *)
Definition report_state (ctx : GithubActionContext.t) (issueNumber : Z)
  (w0 w : World) (d : DiffComment.t) (m : Prog unit) : Prop :=
  Respects step_effect m /\
  step_effect w0 w /\
  match files w0 (DiffComment.path d) with
  | None =>
      m = commentDiff ctx issueNumber d \/
      m = Done (Throw (FsError (DiffComment.path d)))
  | Some text =>
      (owes (posts_report ctx issueNumber w0 d text) w0 m \/
       exists l c, log w = (log w0 ++ l)%list /\ In c l /\
                   posts_report ctx issueNumber w0 d text c) /\
      (no_faults w0 -> paginate_ok w0 -> unfailing m w)
  end.

(** * Theorems *)

Lemma every_false_iff {A} (p : A -> bool) (l : list A) :
  Js.every p l = false <-> Exists (fun x => p x = false) l.
Proof.
  unfold Js.every. induction l as [|x l IH]; simpl.
  - split; [discriminate | intros H; inversion H].
  - rewrite andb_false_iff, IH. split.
    + intros [H|H]; [now left | now right].
    + intros H. inversion H; subst; [now left | now right].
Qed.

(** C8: [renderTable] throws exactly when some row's length differs from the
    headers' length, and on the two-column example it returns the header row,
    the divider row of two [---] cells and the two data rows, one per line
    (four line feeds in all). *)
Theorem renderTable_spec :
  (forall headers rows,
      (exists e, renderTable headers rows = Throw e) <->
      Exists (fun row => length row <> length headers) rows) /\
  (forall headers rows,
      (exists out, renderTable headers rows = Ok out) <->
      Forall (fun row => length row = length headers) rows) /\
  renderTable ["File"; "Size"] [["a.js"; "1 KiB"]; ["b.css"; "2 KiB"]] =
    Ok ("| File | Size |" ++ Js.nl ++
        "| --- | --- |" ++ Js.nl ++
        "| a.js | 1 KiB |" ++ Js.nl ++
        "| b.css | 2 KiB |" ++ Js.nl) /\
  (exists out,
      renderTable ["File"; "Size"] [["a.js"; "1 KiB"]; ["b.css"; "2 KiB"]] =
        Ok out /\
      Js.count_char (ascii_of_nat 10) out = 4).
Proof.
  split; [|split; [|split]].
  - intros headers rows. unfold renderTable.
    destruct (Js.every _ rows) eqn:E; simpl.
    + split.
      * intros [e H]. discriminate.
      * intros H. exfalso. unfold Js.every in E.
        rewrite forallb_forall in E. apply Exists_exists in H.
        destruct H as [row [Hin Hne]]. apply E in Hin.
        apply Nat.eqb_eq in Hin. contradiction.
    + split.
      * intros _. apply every_false_iff in E.
        eapply Exists_impl; [|exact E]. simpl. intros row H.
        now apply Nat.eqb_neq.
      * intros _. eexists. reflexivity.
  - intros headers rows. unfold renderTable.
    destruct (Js.every _ rows) eqn:E; simpl.
    + split.
      * intros _. unfold Js.every in E. rewrite forallb_forall in E.
        apply Forall_forall. intros row Hin. now apply Nat.eqb_eq, E.
      * intros _. eexists. reflexivity.
    + split.
      * intros [out H]. discriminate.
      * intros H. exfalso. apply every_false_iff in E.
        apply Exists_exists in E. destruct E as [row [Hin Hne]].
        rewrite Forall_forall in H. apply H in Hin.
        apply Nat.eqb_neq in Hne. contradiction.
  - reflexivity.
  - eexists. split; reflexivity.
Qed.

(** ** Strings *)

Section StringFacts.

Lemma append_assoc (a b c : string) : (a ++ b) ++ c = a ++ (b ++ c).
Proof. induction a as [|x a IH]; simpl; [reflexivity | now rewrite IH]. Qed.

Lemma prefix_iff (needle haystack : string) :
  String.prefix needle haystack = true <->
  exists post, haystack = needle ++ post.
Proof.
  revert haystack. induction needle as [|x needle IH]; intros haystack.
  - split; [intros _; now exists haystack | now destruct haystack].
  - destruct haystack as [|y haystack]; simpl.
    + split; [discriminate | intros [post H]; discriminate].
    + destruct (ascii_dec x y) as [->|Hne].
      * rewrite IH. split; intros [post H]; exists post.
        -- now rewrite H.
        -- now injection H.
      * split; [discriminate | intros [post H]; injection H; congruence].
Qed.

Lemma prefix_append (needle post : string) :
  String.prefix needle (needle ++ post) = true.
Proof. apply prefix_iff. now exists post. Qed.

Lemma includes_nil (needle : string) :
  Js.includes "" needle = String.prefix needle "" || false.
Proof. reflexivity. Qed.

Lemma includes_cons (x : ascii) (haystack needle : string) :
  Js.includes (String x haystack) needle =
  String.prefix needle (String x haystack) || Js.includes haystack needle.
Proof. reflexivity. Qed.

Lemma includes_iff (haystack needle : string) :
  Js.includes haystack needle = true <->
  exists pre post, haystack = pre ++ needle ++ post.
Proof.
  induction haystack as [|x haystack IH];
    [rewrite includes_nil | rewrite includes_cons].
  - rewrite orb_false_r, prefix_iff. split.
    + intros [post H]. now exists "", post.
    + intros [pre [post H]]. destruct pre; [now exists post | discriminate].
  - rewrite orb_true_iff, prefix_iff, IH. split.
    + intros [[post H] | [pre [post H]]].
      * now exists "", post.
      * exists (String x pre), post. simpl. now rewrite H.
    + intros [pre [post H]]. destruct pre as [|y pre]; simpl in H.
      * left. now exists post.
      * right. injection H as _ H. now exists pre, post.
Qed.

Lemma includes_prefix (haystack needle : string) :
  String.prefix needle haystack = true -> Js.includes haystack needle = true.
Proof.
  intros H.
  destruct haystack; [rewrite includes_nil | rewrite includes_cons];
    rewrite H; reflexivity.
Qed.

End StringFacts.

(** ** The composed body *)

Lemma body_of_marker env ctx c :
  exists rest,
    body_of env ctx c = marker_of (CommentText.markerText c) ++ rest.
Proof.
  unfold body_of, Js.join. simpl. eexists. reflexivity.
Qed.

Lemma body_of_prefix env ctx c :
  String.prefix (marker_of (CommentText.markerText c)) (body_of env ctx c) = true.
Proof.
  destruct (body_of_marker env ctx c) as [rest ->]. apply prefix_append.
Qed.

Lemma body_of_bodyText env ctx c :
  Js.includes (body_of env ctx c) (CommentText.bodyText c) = true.
Proof.
  apply includes_iff. unfold body_of, Js.join.
  exists (marker_of (CommentText.markerText c) ++ Js.nl ++
          ("## " ++ CommentText.titleText c) ++ Js.nl).
  exists (Js.nl ++ (Js.nl ++ "---") ++ Js.nl ++
          renderCommentFooter env (GithubActionContext.context ctx)
            (GithubActionContext.commit ctx)).
  cbn [String.concat]. rewrite !append_assoc. reflexivity.
Qed.

(** ** Running a function alone *)

Lemma run_await {A} (op : Async A) w : run (await op) w = op w.
Proof. unfold await. simpl. now destruct (op w). Qed.

Lemma run_bind {A B} (m : Prog A) (k : A -> Prog B) :
  forall w,
    run (bind m k) w =
    match run m w with
    | (Ok a, w') => run (k a) w'
    | (Throw e, w') => (Throw e, w')
    end.
Proof.
  induction m as [[a|e]|X op k' IH]; intros w; simpl; try reflexivity.
  destruct (op w) as [r w']. apply IH.
Qed.

Lemma run_try_catch {A} (m handler : Prog A) :
  forall w,
    run (try_catch m handler) w =
    match run m w with
    | (Ok a, w') => (Ok a, w')
    | (Throw _, w') => run handler w'
    end.
Proof.
  induction m as [[a|e]|X op k' IH]; intros w; simpl; try reflexivity.
  destruct (op w) as [r w']. apply IH.
Qed.

Lemma with_log_log w : with_log (log w) w = w.
Proof. now destruct w. Qed.

Lemma request_no_faults c w :
  no_faults w ->
  request c w = (Ok tt, with_log (log w ++ [c])%list w).
Proof. unfold no_faults, request. now intros ->. Qed.

Lemma for_await_pages_no_faults p marker pages :
  forall page commentId w,
    no_faults w ->
    run (for_await_pages p marker page pages commentId) w =
    (Ok (scan_pages marker pages commentId),
     with_log (log w ++ map (ListComments p) (seq page (length pages)))%list w).
Proof.
  induction pages as [|comments rest IH]; intros page commentId w Hw.
  - simpl. now rewrite app_nil_r, with_log_log.
  - cbn [for_await_pages]. rewrite run_bind, run_await.
    rewrite (request_no_faults _ _ Hw).
    rewrite IH by exact Hw. simpl. now rewrite <- app_assoc.
Qed.

(** Both versions of [comment] end with the loop and the upsert. *)
Lemma comment_run ctx issueNumber c w :
  ends_with_upsert (comment ctx issueNumber c)
    (issueParameters_of ctx issueNumber)
    (marker_of (CommentText.markerText c))
    (body_of (GITHUB_RUN_ATTEMPT w) ctx c) w.
Proof.
  unfold ends_with_upsert, comment.
  rewrite run_bind, run_await. unfold process_env_GITHUB_RUN_ATTEMPT.
  rewrite run_bind, run_await. unfold listComments_pages.
  rewrite run_bind.
  fold (issueParameters_of ctx issueNumber).
  fold (issue_comments issueNumber w). fold (pages_of issueNumber w).
  cbn [IssueParams.issue_number issueParameters_of].
  destruct (run (for_await_pages _ _ _ _ _) w) as [[[n|]|e] w'];
    try reflexivity.
  unfold create_or_update. destruct (Z.eqb n 0); apply run_await.
  apply run_await.
Qed.

Lemma legacy_comment_run g markerText bodyText w :
  ends_with_upsert (Legacy.comment g markerText bodyText)
    (Legacy.issueParameters_of g) (Legacy.marker_of markerText)
    (Legacy.marker_of markerText ++ bodyText) w.
Proof.
  unfold ends_with_upsert, Legacy.comment.
  rewrite run_bind, run_await. unfold listComments_pages.
  rewrite run_bind.
  fold (Legacy.issueParameters_of g). fold (Legacy.marker_of markerText).
  fold (issue_comments (Legacy.issueNumber g) w).
  fold (pages_of (Legacy.issueNumber g) w).
  cbn [IssueParams.issue_number Legacy.issueParameters_of].
  destruct (run (for_await_pages _ _ _ _ _) w) as [[[n|]|e] w'];
    try reflexivity.
  unfold create_or_update. destruct (Z.eqb n 0); apply run_await.
  apply run_await.
Qed.

(** With every page request succeeding, such a run is: request every page,
    then create or update by the value [commentId] ended with. *)
Lemma upsert_no_faults m p marker body w :
  ends_with_upsert m p marker body w ->
  no_faults w ->
  let pages := pages_of (IssueParams.issue_number p) w in
  run m w =
  create_or_update p body (scan_pages marker pages None)
    (with_log (log w ++ page_requests p (length pages))%list w).
Proof.
  intros Hm Hw pages. rewrite Hm. fold pages.
  now rewrite (for_await_pages_no_faults _ _ _ _ _ _ Hw).
Qed.

Lemma comment_no_faults ctx issueNumber c w :
  no_faults w ->
  let p := issueParameters_of ctx issueNumber in
  let pages := pages_of issueNumber w in
  run (comment ctx issueNumber c) w =
  create_or_update p (body_of (GITHUB_RUN_ATTEMPT w) ctx c)
    (scan_pages (marker_of (CommentText.markerText c)) pages None)
    (with_log (log w ++ page_requests p (length pages))%list w).
Proof.
  intros Hw. apply (upsert_no_faults _ _ _ _ _ (comment_run _ _ _ _) Hw).
Qed.

Lemma create_or_update_log p body commentId w :
  log (snd (create_or_update p body commentId w)) =
  (log w ++ [create_or_update_call p body commentId])%list.
Proof.
  unfold create_or_update, create_or_update_call.
  assert (Hc : forall w, log (snd (createComment p body w)) =
                         (log w ++ [CreateComment p body])%list).
  { intros w0. unfold createComment, request.
    destruct (faults w0) as [|[] ?]; reflexivity. }
  assert (Hu : forall n w, log (snd (updateComment p body n w)) =
                           (log w ++ [UpdateComment p body n])%list).
  { intros n w0. unfold updateComment, request.
    destruct (faults w0) as [|[] ?]; simpl; try reflexivity;
      destruct (existsb _ _); reflexivity. }
  destruct commentId as [n|]; [destruct (Z.eqb n 0)|]; auto.
Qed.

(** ** The scan *)

Lemma scan_pages_app marker pages page commentId :
  scan_pages marker (pages ++ [page])%list commentId =
  scan_page marker page (scan_pages marker pages commentId).
Proof. unfold scan_pages. now rewrite fold_left_app. Qed.

Lemma find_existsb {A} (f : A -> bool) (l : list A) :
  existsb f l = false <-> List.find f l = None.
Proof.
  induction l as [|x l IH]; simpl; [tauto|].
  destruct (f x); simpl; [split; discriminate | exact IH].
Qed.

Lemma scan_pages_last_page_match marker pages :
  scan_pages marker pages None = last_page_match marker pages.
Proof.
  induction pages as [|page pages IH] using rev_ind; [reflexivity|].
  rewrite scan_pages_app, IH. unfold last_page_match, last_matching_page.
  rewrite rev_app_distr. simpl. unfold scan_page, Js.find.
  destruct (existsb (has_marker marker) page) eqn:E.
  - destruct (List.find (has_marker marker) page) eqn:F; [reflexivity|].
    apply find_existsb in F. congruence.
  - apply find_existsb in E. rewrite E. reflexivity.
Qed.

Lemma scan_pages_no_match marker pages commentId :
  (forall c, In c (concat pages) -> has_marker marker c = false) ->
  scan_pages marker pages commentId = commentId.
Proof.
  revert commentId. induction pages as [|page pages IH]; intros commentId H.
  - reflexivity.
  - simpl in *. unfold scan_pages in *. simpl. rewrite IH.
    + unfold scan_page, Js.find.
      destruct (List.find (has_marker marker) page) eqn:F; [|reflexivity].
      apply find_some in F. destruct F as [Hin Hm].
      rewrite H in Hm; [discriminate | apply in_or_app; now left].
    + intros c Hc. apply H, in_or_app. now right.
Qed.

Lemma scan_pages_some marker pages commentId n :
  scan_pages marker pages commentId = Some n ->
  commentId = Some n \/
  exists c, In c (concat pages) /\ has_marker marker c = true /\
            IssueComment.id c = n.
Proof.
  revert commentId. induction pages as [|page pages IH]; intros commentId H.
  - now left.
  - unfold scan_pages in H. simpl in H. apply IH in H.
    destruct H as [H | [c [Hin [Hm Hid]]]].
    + unfold scan_page, Js.find in H.
      destruct (List.find (has_marker marker) page) eqn:F; [|now left].
      apply find_some in F. destruct F as [Hin Hm]. right.
      exists t. injection H as H. simpl.
      split; [apply in_or_app; now left | now split].
    + right. exists c. simpl. split; [apply in_or_app; now right | now split].
Qed.

Lemma scan_pages_match marker pages c commentId :
  In c (concat pages) -> has_marker marker c = true ->
  exists n, scan_pages marker pages commentId = Some n.
Proof.
  induction pages as [|page pages IH] using rev_ind; intros Hin Hm.
  - destruct Hin.
  - rewrite scan_pages_app. unfold scan_page, Js.find.
    destruct (List.find (has_marker marker) page) eqn:F; [eauto|].
    rewrite concat_app in Hin. simpl in Hin. rewrite app_nil_r in Hin.
    apply in_app_or in Hin. destruct Hin as [Hin|Hin]; [now apply IH|].
    apply (find_none _ _ F) in Hin. congruence.
Qed.

Lemma last_call_snoc w l c :
  log w = (l ++ [c])%list -> last_call w = Some c.
Proof.
  unfold last_call. intros ->. rewrite map_app. simpl.
  now rewrite last_last.
Qed.

Lemma last_call_app_snoc w l l' c :
  log w = (l ++ l' ++ [c])%list -> last_call w = Some c.
Proof. rewrite app_assoc. apply last_call_snoc. Qed.

(** ** The upsert over a sequence of pages *)

Lemma comment_log_no_faults ctx issueNumber c w :
  no_faults w ->
  let p := issueParameters_of ctx issueNumber in
  let pages := pages_of issueNumber w in
  log (snd (run (comment ctx issueNumber c) w)) =
    (log w ++ page_requests p (length pages) ++
     [create_or_update_call p (body_of (GITHUB_RUN_ATTEMPT w) ctx c)
        (last_page_match (marker_of (CommentText.markerText c)) pages)])%list.
Proof.
  intros Hw p pages.
  rewrite (comment_no_faults ctx issueNumber c w Hw). cbv zeta.
  rewrite create_or_update_log, scan_pages_last_page_match. simpl.
  now rewrite <- app_assoc.
Qed.

Lemma comment_last_call_no_faults ctx issueNumber c w :
  no_faults w ->
  last_call (snd (run (comment ctx issueNumber c) w)) =
    Some (create_or_update_call (issueParameters_of ctx issueNumber)
            (body_of (GITHUB_RUN_ATTEMPT w) ctx c)
            (last_page_match (marker_of (CommentText.markerText c))
               (pages_of issueNumber w))).
Proof.
  intros Hw. eapply last_call_app_snoc.
  apply (comment_log_no_faults ctx issueNumber c w Hw).
Qed.

Lemma upserts_after_full_scan_no_faults m p marker body w :
  ends_with_upsert m p marker body w ->
  no_faults w ->
  upserts_after_full_scan m p marker body w.
Proof.
  intros Hm Hw. unfold upserts_after_full_scan.
  rewrite (upsert_no_faults _ _ _ _ _ Hm Hw). cbv zeta.
  rewrite scan_pages_last_page_match. split; [reflexivity|]. split.
  - unfold create_or_update.
    destruct (last_page_match _ _) as [n|]; [destruct (Z.eqb n 0)|];
      reflexivity.
  - rewrite create_or_update_log. unfold create_or_update_call. simpl.
    now rewrite <- app_assoc.
Qed.

(** C2 (amended): when the page requests succeed, [comment], in today's
    script and in the earlier one, requests every page of the listing, in
    order and whatever it found on earlier pages; the identifier it ends
    with is that of the first comment with the marker on the last page that
    holds one; it then creates a comment when no identifier was recorded or
    the recorded one is 0, and otherwise updates the comment at the recorded
    identifier, in both cases with the composed body. *)
Theorem comment_scans_every_page_then_upserts ctx issueNumber c g markerText
  bodyText w :
  no_faults w ->
  upserts_after_full_scan (comment ctx issueNumber c)
    (issueParameters_of ctx issueNumber)
    (marker_of (CommentText.markerText c))
    (body_of (GITHUB_RUN_ATTEMPT w) ctx c) w /\
  upserts_after_full_scan (Legacy.comment g markerText bodyText)
    (Legacy.issueParameters_of g)
    (Legacy.marker_of markerText)
    (Legacy.marker_of markerText ++ bodyText) w.
Proof.
  intros Hw. split; apply upserts_after_full_scan_no_faults;
    auto using comment_run, legacy_comment_run.
Qed.

(** A listing of two pages, the second of which holds the marker: both pages
    are requested and the comment of the second page is updated. *)
Lemma comment_scans_every_page_then_upserts_witness :
  let w := Samples.world
             [Samples.stored 11 "unrelated"; Samples.stored 22 Samples.marker]
             23 1 [] in
  no_faults w /\
  log (snd (run (comment Samples.ctx 7 (Samples.text "new")) w)) =
    [ListComments Samples.params 0; ListComments Samples.params 1;
     UpdateComment Samples.params
       (body_of (Some "1") Samples.ctx (Samples.text "new")) 22].
Proof.
  intros w. split; [reflexivity|].
  destruct (comment_scans_every_page_then_upserts
              Samples.ctx 7 (Samples.text "new")
              {| Legacy.context := GithubActionContext.context Samples.ctx;
                 Legacy.issueNumber := 7 |} "dist-diff-js" "new" w eq_refl)
    as [[_ [_ H]] _].
  rewrite H. reflexivity.
Defined.

(** C2, as stated, fails: in a listing whose only comment with the marker
    has identifier 0 an identifier is recorded, and yet the run ends by
    creating a comment. *)
Lemma comment_creates_although_id_recorded :
  let w := Samples.world [Samples.stored 0 Samples.marker] 1 30 [] in
  ~ (creates (run (comment Samples.ctx 7 (Samples.text "new")) w) <->
     scan_pages Samples.marker (pages_of 7 w) None = None).
Proof.
  intros w [H _].
  assert (Hc : creates (run (comment Samples.ctx 7 (Samples.text "new")) w)).
  { eexists _, _. reflexivity. }
  apply H in Hc. discriminate Hc.
Qed.

(** C3: with a comment holding the marker on each of two pages, the first one
    met during pagination is comment 11, and the run updates comment 22, the
    one of the last page. *)
Theorem comment_duplicates_update_last_page :
  let w := Samples.world
             [Samples.stored 11 Samples.marker; Samples.stored 22 Samples.marker]
             23 1 [] in
  pages_of 7 w =
    [[Samples.stored 11 Samples.marker]; [Samples.stored 22 Samples.marker]] /\
  first_match Samples.marker (pages_of 7 w) = Some 11%Z /\
  log (snd (run (comment Samples.ctx 7 (Samples.text "new")) w)) =
    [ListComments Samples.params 0; ListComments Samples.params 1;
     UpdateComment Samples.params
       (body_of (Some "1") Samples.ctx (Samples.text "new")) 22] /\
  comments (snd (run (comment Samples.ctx 7 (Samples.text "new")) w)) =
    [Samples.stored 11 Samples.marker;
     Samples.stored 22 (body_of (Some "1") Samples.ctx (Samples.text "new"))].
Proof. repeat split. Qed.

(** ** Recognising the marker *)

(** C6, as stated, fails: a comment that holds the marker token after other
    text, not at its start, is the one the run updates. *)
Lemma comment_recognises_marker_inside_body :
  let quoted := ("As seen in " ++ Samples.marker ++ " above") in
  let w := Samples.world [Samples.stored 5 quoted] 6 30 [] in
  String.prefix Samples.marker quoted = false /\
  last_call (snd (run (comment Samples.ctx 7 (Samples.text "new")) w)) =
    Some (UpdateComment Samples.params
            (body_of (Some "1") Samples.ctx (Samples.text "new")) 5).
Proof. split; reflexivity. Qed.

Lemma has_marker_iff marker c :
  has_marker marker c = true <->
  exists pre post, IssueComment.body c = Some (pre ++ marker ++ post).
Proof.
  unfold has_marker. destruct (IssueComment.body c) as [text|].
  - rewrite includes_iff. split; intros [pre [post H]]; exists pre, post.
    + now rewrite H.
    + now injection H.
  - split; [discriminate | intros [pre [post H]]; discriminate].
Qed.

Lemma last_page_match_single marker cm :
  last_page_match marker [[cm]] =
  if has_marker marker cm then Some (IssueComment.id cm) else None.
Proof.
  unfold last_page_match, last_matching_page. simpl.
  destruct (has_marker marker cm) eqn:E; simpl; rewrite ?E; reflexivity.
Qed.

(** C6 (amended): a comment is recognised exactly when the marker token
    occurs somewhere in its body, at the start or not: in a one-comment
    listing with a non-zero identifier the run updates that comment exactly
    in that case.  Every body [comment] composes starts with the token. *)
Theorem comment_recognises_marker_anywhere ctx issueNumber c w cm :
  no_faults w ->
  pages_of issueNumber w = [[cm]] ->
  IssueComment.id cm <> 0%Z ->
  let marker := marker_of (CommentText.markerText c) in
  let body := body_of (GITHUB_RUN_ATTEMPT w) ctx c in
  ((exists pre post, IssueComment.body cm = Some (pre ++ marker ++ post)) <->
   last_call (snd (run (comment ctx issueNumber c) w)) =
     Some (UpdateComment (issueParameters_of ctx issueNumber) body
             (IssueComment.id cm))) /\
  String.prefix marker body = true /\
  has_marker marker
    {| IssueComment.issue := issueNumber; IssueComment.id := next_id w;
       IssueComment.body := Some body |} = true.
Proof.
  intros Hw Hp Hid marker body.
  pose proof (comment_last_call_no_faults ctx issueNumber c w Hw) as Hlog.
  fold marker body in Hlog.
  rewrite Hp, last_page_match_single in Hlog.
  rewrite <- has_marker_iff, Hlog. split; [|split].
  - destruct (has_marker marker cm); unfold create_or_update_call.
    + apply Z.eqb_neq in Hid. rewrite Hid. split; reflexivity.
    + split; discriminate.
  - apply body_of_prefix.
  - unfold has_marker. cbn [IssueComment.body].
    apply includes_prefix, body_of_prefix.
Qed.

Lemma comment_recognises_marker_anywhere_witness :
  let quoted := ("As seen in " ++ Samples.marker ++ " above") in
  let w := Samples.world [Samples.stored 5 quoted] 6 30 [] in
  no_faults w /\ pages_of 7 w = [[Samples.stored 5 quoted]] /\
  String.prefix Samples.marker
    (body_of (Some "1") Samples.ctx (Samples.text "new")) = true.
Proof.
  intros quoted w. split; [reflexivity|]. split; [reflexivity|].
  apply (comment_recognises_marker_anywhere
           Samples.ctx 7 (Samples.text "new") w (Samples.stored 5 quoted)
           eq_refl eq_refl).
  simpl. discriminate.
Defined.

(** ** The identifier 0 *)

Lemma creates_on_id_zero_no_faults m p marker body w :
  ends_with_upsert m p marker body w ->
  no_faults w ->
  creates_on_id_zero m p marker body w.
Proof.
  intros Hm Hw. unfold creates_on_id_zero.
  set (pages := pages_of (IssueParams.issue_number p) w).
  intros [cm [Hin Hmk]] Hzero.
  assert (Hscan : scan_pages marker pages None = Some 0%Z).
  { destruct (scan_pages_match marker pages cm None Hin Hmk) as [n Hn].
    rewrite Hn. apply scan_pages_some in Hn.
    destruct Hn as [Hn | [c' [Hin' [Hm' Hid']]]]; [discriminate|].
    rewrite <- Hid'. f_equal. now apply Hzero. }
  pose proof (upsert_no_faults _ _ _ _ _ Hm Hw) as H.
  cbv zeta in H. fold pages in H. rewrite Hscan in H.
  change (create_or_update p body (Some 0%Z)) with (createComment p body) in H.
  repeat split; [exact Hscan | exact H |].
  eapply last_call_snoc. rewrite H.
  exact (create_or_update_log p body None _).
Qed.

(** C10: the test [!commentId] is one of truthiness, in today's script and
    in the earlier one: when the listing holds a comment with the marker and
    every such comment has identifier 0, the loop records 0 and the run
    creates a new comment instead of updating. *)
Theorem comment_id_zero_creates ctx issueNumber c g markerText bodyText w :
  no_faults w ->
  creates_on_id_zero (comment ctx issueNumber c)
    (issueParameters_of ctx issueNumber)
    (marker_of (CommentText.markerText c))
    (body_of (GITHUB_RUN_ATTEMPT w) ctx c) w /\
  creates_on_id_zero (Legacy.comment g markerText bodyText)
    (Legacy.issueParameters_of g)
    (Legacy.marker_of markerText)
    (Legacy.marker_of markerText ++ bodyText) w.
Proof.
  intros Hw. split; apply creates_on_id_zero_no_faults;
    auto using comment_run, legacy_comment_run.
Qed.

Lemma comment_id_zero_creates_witness :
  let w := Samples.world [Samples.stored 0 Samples.marker] 1 30 [] in
  no_faults w /\
  comments (snd (run (comment Samples.ctx 7 (Samples.text "new")) w)) =
    [Samples.stored 0 Samples.marker;
     Samples.stored 1 (body_of (Some "1") Samples.ctx (Samples.text "new"))].
Proof.
  intros w. split; [reflexivity|].
  destruct (comment_id_zero_creates Samples.ctx 7 (Samples.text "new")
              {| Legacy.context := GithubActionContext.context Samples.ctx;
                 Legacy.issueNumber := 7 |} "dist-diff-js" "new" w eq_refl)
    as [H _].
  destruct H as [_ [H _]].
  - exists (Samples.stored 0 Samples.marker). split; [now left | reflexivity].
  - intros cm [<-|[]] _. reflexivity.
  - rewrite H. reflexivity.
Defined.

(** ** What steps leave alone *)

Lemma same_surroundings_refl w : same_surroundings w w.
Proof. repeat split. exists []. now rewrite app_nil_r. Qed.

Lemma same_surroundings_trans w1 w2 w3 :
  same_surroundings w1 w2 -> same_surroundings w2 w3 ->
  same_surroundings w1 w3.
Proof.
  intros [A [B [C [l D]]]] [A' [B' [C' [l' D']]]].
  repeat split; try congruence.
  exists (l ++ l')%list. now rewrite D', D, app_assoc.
Qed.

Lemma same_surroundings_logged w w' c :
  same_surroundings w w' -> In c (log w) -> In c (log w').
Proof.
  intros [_ [_ [_ [l ->]]]] H. apply in_or_app. now left.
Qed.

Lemma with_log_surroundings w c :
  same_surroundings w (with_log (log w ++ [c])%list w).
Proof. repeat split. now exists [c]. Qed.

Lemma request_surroundings c w : same_surroundings w (snd (request c w)).
Proof.
  unfold request.
  destruct (faults w) as [|[] ?]; repeat split; now exists [c].
Qed.

Lemma readFile_surroundings path w :
  same_surroundings w (snd (readFile path w)).
Proof.
  unfold readFile.
  destruct (files w path); repeat split; now exists [ReadFile path].
Qed.

Lemma createComment_surroundings p body w :
  same_surroundings w (snd (createComment p body w)).
Proof.
  unfold createComment.
  pose proof (request_surroundings (CreateComment p body) w) as H.
  destruct (request (CreateComment p body) w) as [[[]|e] w']; exact H.
Qed.

Lemma updateComment_surroundings p body n w :
  same_surroundings w (snd (updateComment p body n w)).
Proof.
  unfold updateComment.
  pose proof (request_surroundings (UpdateComment p body n) w) as H.
  destruct (request (UpdateComment p body n) w) as [[[]|e] w'];
    [destruct (existsb _ _)|]; exact H.
Qed.

Section RespectsFacts.

Variable R : World -> World -> Prop.
Hypothesis R_refl : forall w, R w w.
Hypothesis R_trans : forall w1 w2 w3, R w1 w2 -> R w2 w3 -> R w1 w3.

Lemma Respects_await {A} (op : Async A) :
  (forall w, R w (snd (op w))) -> Respects R (await op).
Proof. intros H. apply Respects_step; [exact H | constructor]. Qed.

Lemma Respects_bind {A B} (m : Prog A) (k : A -> Prog B) :
  Respects R m -> (forall a, Respects R (k a)) -> Respects R (bind m k).
Proof.
  intros Hm Hk. induction Hm as [[a|e]|X op k' Hop _ IH]; simpl.
  - apply Hk.
  - constructor.
  - apply Respects_step; [exact Hop | exact IH].
Qed.

Lemma Respects_try_catch {A} (m handler : Prog A) :
  Respects R m -> Respects R handler -> Respects R (try_catch m handler).
Proof.
  intros Hm Hh. induction Hm as [[a|e]|X op k' Hop _ IH]; simpl.
  - constructor.
  - exact Hh.
  - apply Respects_step; [exact Hop | exact IH].
Qed.

Lemma Respects_run {A} (m : Prog A) :
  Respects R m -> forall w, R w (snd (run m w)).
Proof.
  induction 1 as [r|X op k Hop _ IH]; intros w; simpl.
  - apply R_refl.
  - specialize (Hop w). destruct (op w) as [r w']. simpl in Hop.
    eapply R_trans; [exact Hop | apply IH].
Qed.

Lemma Respects_step_inv (m : Prog unit) w :
  Respects R m -> Respects R (fst (step m w)) /\ R w (snd (step m w)).
Proof.
  intros [r|X op k Hop Hk]; simpl.
  - split; [constructor | apply R_refl].
  - specialize (Hop w). destruct (op w) as [r w']. split; [apply Hk | exact Hop].
Qed.

End RespectsFacts.

Lemma for_await_pages_respects p marker pages :
  forall page commentId,
    Respects same_surroundings
      (for_await_pages p marker page pages commentId).
Proof.
  induction pages as [|comments rest IH]; intros page commentId.
  - constructor.
  - cbn [for_await_pages]. apply Respects_bind.
    + apply Respects_await, request_surroundings.
    + intros _. apply IH.
Qed.

Lemma comment_respects ctx issueNumber c :
  Respects same_surroundings (comment ctx issueNumber c).
Proof.
  unfold comment. apply Respects_bind.
  { apply Respects_await. intros w. apply same_surroundings_refl. }
  intros attempt. apply Respects_bind.
  { apply Respects_await. intros w. apply same_surroundings_refl. }
  intros pages. apply Respects_bind; [apply for_await_pages_respects|].
  intros [n|]; [destruct (Z.eqb n 0)|]; apply Respects_await;
    auto using createComment_surroundings, updateComment_surroundings.
Qed.

Lemma commentDiff_respects ctx issueNumber d :
  Respects same_surroundings (commentDiff ctx issueNumber d).
Proof.
  unfold commentDiff. apply Respects_bind.
  { apply Respects_await, readFile_surroundings. }
  intros text. apply Respects_try_catch; [apply comment_respects|].
  apply Respects_bind.
  { apply Respects_await. intros w. apply same_surroundings_refl. }
  intros attempt. apply comment_respects.
Qed.

Lemma comment_surroundings ctx issueNumber c w :
  same_surroundings w (snd (run (comment ctx issueNumber c) w)).
Proof.
  apply (Respects_run same_surroundings same_surroundings_refl
           same_surroundings_trans), comment_respects.
Qed.

Lemma commentDiff_surroundings ctx issueNumber d w :
  same_surroundings w (snd (run (commentDiff ctx issueNumber d) w)).
Proof.
  apply (Respects_run same_surroundings same_surroundings_refl
           same_surroundings_trans), commentDiff_respects.
Qed.

(** ** commentDiff *)

(** [commentDiff] is: read the file, try to post the fenced diff, and on a
    failure of that post, post the fallback. *)
Lemma commentDiff_read ctx issueNumber d w text :
  files w (DiffComment.path d) = Some text ->
  run (commentDiff ctx issueNumber d) w =
  run (try_catch
         (comment ctx issueNumber
            (diff_text d (diff_bodyText
                            (if String.eqb text "" then "No changes found."
                             else text))))
         (attempt <- await process_env_GITHUB_RUN_ATTEMPT ;;
          comment ctx issueNumber (fallback_text attempt ctx d)))
      (after_read (DiffComment.path d) w).
Proof.
  intros H. unfold commentDiff. rewrite run_bind, run_await.
  unfold readFile. rewrite H. reflexivity.
Qed.

Lemma commentDiff_read_fails ctx issueNumber d w :
  files w (DiffComment.path d) = None ->
  run (commentDiff ctx issueNumber d) w =
  (Throw (FsError (DiffComment.path d)), after_read (DiffComment.path d) w).
Proof.
  intros H. unfold commentDiff. rewrite run_bind, run_await.
  unfold readFile. rewrite H. reflexivity.
Qed.

(** C4 (amended): once the file has been read, if posting the diff fails,
    whatever the reason, [commentDiff] posts instead, through [comment], a
    text that does not depend on the file and links to the run's address
    followed by [#artifacts]; if posting the diff succeeds nothing else
    happens; if the read itself rejects, that rejection is the outcome and no
    request is made on the client. *)
Theorem commentDiff_falls_back_after_failed_post ctx issueNumber d w :
  let path := DiffComment.path d in
  let post text :=
    run (comment ctx issueNumber
           (diff_text d (diff_bodyText
                           (if String.eqb text "" then "No changes found."
                            else text)))) in
  let fallback :=
    run (comment ctx issueNumber
           (fallback_text (GITHUB_RUN_ATTEMPT w) ctx d)) in
  (forall text e w1,
      files w path = Some text ->
      post text (after_read path w) = (Throw e, w1) ->
      run (commentDiff ctx issueNumber d) w = fallback w1) /\
  (forall text w1,
      files w path = Some text ->
      post text (after_read path w) = (Ok tt, w1) ->
      run (commentDiff ctx issueNumber d) w = (Ok tt, w1)) /\
  (files w path = None ->
   run (commentDiff ctx issueNumber d) w =
     (Throw (FsError path), after_read path w)) /\
  CommentText.bodyText (fallback_text (GITHUB_RUN_ATTEMPT w) ctx d) =
    "The diff could not be posted as a comment. You can download it from the [workflow artifacts](" ++
    githubActionRunUrl (GITHUB_RUN_ATTEMPT w) (GithubActionContext.context ctx) ++
    "#artifacts" ++ ").".
Proof.
  intros path post fallback. split; [|split; [|split]].
  - intros text e w1 Hread Hpost.
    rewrite (commentDiff_read _ _ _ _ _ Hread), run_try_catch.
    fold path. fold (post text). rewrite Hpost.
    rewrite run_bind, run_await. unfold process_env_GITHUB_RUN_ATTEMPT.
    pose proof (comment_surroundings ctx issueNumber
                  (diff_text d (diff_bodyText
                     (if String.eqb text "" then "No changes found."
                      else text)))
                  (after_read path w)) as [_ [Henv _]].
    fold (post text) in Henv. rewrite Hpost in Henv. simpl in Henv.
    rewrite Henv. reflexivity.
  - intros text w1 Hread Hpost.
    rewrite (commentDiff_read _ _ _ _ _ Hread), run_try_catch.
    fold path. fold (post text). rewrite Hpost. reflexivity.
  - apply commentDiff_read_fails.
  - reflexivity.
Qed.

(** The listing succeeds, the creation is rejected: the fallback is created
    instead. *)
Lemma commentDiff_falls_back_after_failed_post_witness :
  let w := Samples.world [] 1 30 [false; true] in
  let d := Samples.diff "js.diff" "dist-diff-js" in
  Samples.disk "js.diff" = Some "+const a = 1" /\
  comments (snd (run (commentDiff Samples.ctx 7 d) w)) =
    [Samples.stored 1
       (body_of (Some "1") Samples.ctx (fallback_text (Some "1") Samples.ctx d))].
Proof.
  intros w d. split; [reflexivity|].
  destruct (commentDiff_falls_back_after_failed_post Samples.ctx 7 d w)
    as [H _].
  erewrite H; cycle 1.
  - reflexivity.
  - vm_compute. reflexivity.
  - reflexivity.
Defined.

(** C4, as stated, fails: when the read rejects, [commentDiff] rejects with
    the read's error and posts nothing, fallback included. *)
Lemma commentDiff_read_error_propagates :
  let w := Samples.world [] 1 30 [] in
  let r := run (commentDiff Samples.ctx 7
                  (Samples.diff "missing.diff" "dist-diff-js")) w in
  files w "missing.diff" = None /\
  fst r = Throw (FsError "missing.diff") /\
  log (snd r) = [ReadFile "missing.diff"] /\
  comments (snd r) = [].
Proof. repeat split. Qed.

(** C7: for a file that reads as the empty string the comment [commentDiff]
    posts holds [No changes found.] between the fences; for any other
    content it holds that content, unchanged, between the fences.  The post
    is the request the first attempt ends with; when that attempt succeeds
    it is all [commentDiff] does. *)
Theorem commentDiff_posts_diff_or_placeholder ctx issueNumber d w text :
  files w (DiffComment.path d) = Some text ->
  no_faults w ->
  let fenced :=
    if String.eqb text "" then
      "```diff" ++ Js.nl ++ "No changes found." ++ Js.nl ++ "```"
    else "```diff" ++ Js.nl ++ text ++ Js.nl ++ "```" in
  let attempt :=
    run (comment ctx issueNumber (diff_text d fenced))
      (after_read (DiffComment.path d) w) in
  let body := body_of (GITHUB_RUN_ATTEMPT w) ctx (diff_text d fenced) in
  posted_body (last_call (snd attempt)) = Some body /\
  Js.includes body fenced = true /\
  (fst attempt = Ok tt -> run (commentDiff ctx issueNumber d) w = attempt).
Proof.
  intros Hread Hw fenced attempt body.
  assert (Hf : diff_bodyText
                 (if String.eqb text "" then "No changes found." else text) =
               fenced).
  { unfold fenced, diff_bodyText.
    destruct (String.eqb text ""); now rewrite append_assoc. }
  split; [|split].
  - pose proof (comment_last_call_no_faults ctx issueNumber
                  (diff_text d fenced) (after_read (DiffComment.path d) w) Hw)
      as Hlog.
    fold attempt in Hlog. rewrite Hlog. unfold create_or_update_call.
    destruct (last_page_match _ _) as [n|]; [destruct (Z.eqb n 0)|];
      reflexivity.
  - apply (body_of_bodyText (GITHUB_RUN_ATTEMPT w) ctx (diff_text d fenced)).
  - intros Hok. rewrite (commentDiff_read _ _ _ _ _ Hread), Hf.
    rewrite run_try_catch. fold attempt.
    destruct attempt as [[[]|e] w1]; [reflexivity | discriminate Hok].
Qed.

(** The empty diff on an issue without comments: the placeholder is what
    the created comment holds. *)
Lemma commentDiff_posts_diff_or_placeholder_witness :
  let w := Samples.world [] 1 30 [] in
  let d := Samples.diff "empty.diff" "dist-diff-js" in
  files w "empty.diff" = Some "" /\ no_faults w /\
  posted_body (last_call (snd (run (commentDiff Samples.ctx 7 d) w))) =
    Some (body_of (Some "1") Samples.ctx
            (diff_text d
               ("```diff" ++ Js.nl ++ "No changes found." ++ Js.nl ++ "```"))).
Proof.
  intros w d. split; [reflexivity|]. split; [reflexivity|].
  destruct (commentDiff_posts_diff_or_placeholder
              Samples.ctx 7 d w "" eq_refl eq_refl) as [H [_ Hall]].
  rewrite Hall; [exact H | reflexivity].
Defined.


(** ** The build package task *)

Lemma run_series_all_succeed (succeeds : Package.Task -> bool) tasks :
  Forall (fun t => succeeds t = true) tasks ->
  Package.run_series succeeds tasks = (tasks, true).
Proof.
  induction 1 as [|t tasks Ht _ IH]; simpl; [reflexivity|].
  now rewrite Ht, IH.
Qed.

Lemma run_series_prefix (succeeds : Package.Task -> bool) tasks :
  exists rest,
    tasks = (fst (Package.run_series succeeds tasks) ++ rest)%list.
Proof.
  induction tasks as [|t tasks [rest IH]]; simpl.
  - now exists [].
  - destruct (succeeds t).
    + destruct (Package.run_series succeeds tasks) as [started ok].
      exists rest. simpl in *. now rewrite <- IH.
    + now exists tasks.
Qed.

(** C9: the build package task is the series of exactly these eight tasks
    in this order: the [clean] script in the stats directory, the
    [clean:package] script, assets, fixtures, scripts, styles, templates and
    the named copy of [**/*.js] from [govuk-prototype-kit] under the source
    path to [govuk-prototype-kit] under the destination path.  Run as a
    series, the tasks started are always a beginning of that list, and the
    whole list when each succeeds. *)
Theorem build_package_steps paths_stats options succeeds :
  let steps :=
    [ Package.npm_script "clean" [] (Package.only_basePath paths_stats);
      Package.npm_script "clean:package" [] (Package.task_options options);
      Package.assets options;
      Package.fixtures options;
      Package.scripts options;
      Package.styles options;
      Package.templates options;
      Package.task_name "copy:files 'govuk-prototype-kit'"
        (Package.files_copy "**/*.js"
           [Package.srcPath options; "govuk-prototype-kit"]
           [Package.destPath options; "govuk-prototype-kit"]) ] in
  Package.build_package paths_stats options = Package.gulp_series steps /\
  (exists rest,
      steps =
      (fst (Package.run succeeds (Package.build_package paths_stats options))
       ++ rest)%list) /\
  (forallb succeeds steps = true ->
   Package.run succeeds (Package.build_package paths_stats options) =
     (steps, true)).
Proof.
  intros steps. split; [reflexivity|]. split.
  - apply (run_series_prefix succeeds steps).
  - intros H. apply (run_series_all_succeed succeeds steps).
    apply Forall_forall. intros t Hin.
    rewrite forallb_forall in H. now apply H.
Qed.

Lemma build_package_steps_witness :
  let options := {| Package.basePath := "packages/govuk-frontend";
                    Package.srcPath := "packages/govuk-frontend/src";
                    Package.destPath := "packages/govuk-frontend/dist" |} in
  length (fst (Package.run (fun _ => true)
                 (Package.build_package "shared/stats/dist" options))) = 8.
Proof.
  intros options.
  destruct (build_package_steps "shared/stats/dist" options (fun _ => true))
    as [_ [_ H]].
  rewrite H; reflexivity.
Defined.

(** ** Posting twice *)

Section Store.

Lemma createComment_no_faults p body w :
  no_faults w ->
  createComment p body w =
  (Ok tt,
   with_comments
     (comments w ++
      [{| IssueComment.issue := IssueParams.issue_number p;
          IssueComment.id := next_id w;
          IssueComment.body := Some body |}])%list
     (next_id w + 1)%Z
     (with_log (log w ++ [CreateComment p body])%list w)).
Proof.
  intros Hw. unfold createComment, bind.
  rewrite (request_no_faults _ _ Hw). reflexivity.
Qed.

Lemma updateComment_no_faults p body n w :
  no_faults w ->
  (exists c, In c (comments w) /\ IssueComment.id c = n) ->
  updateComment p body n w =
  (Ok tt,
   with_comments (map (set_body n body) (comments w)) (next_id w)
     (with_log (log w ++ [UpdateComment p body n])%list w)).
Proof.
  intros Hw [c [Hin Hid]]. unfold updateComment, bind.
  rewrite (request_no_faults _ _ Hw). simpl.
  assert (E : existsb (fun c => Z.eqb (IssueComment.id c) n) (comments w) = true).
  { apply existsb_exists. exists c. split; [exact Hin | now apply Z.eqb_eq]. }
  rewrite E. reflexivity.
Qed.

Lemma set_body_id n body c :
  IssueComment.id (set_body n body c) = IssueComment.id c.
Proof. unfold set_body. now destruct (Z.eqb _ _). Qed.

Lemma set_body_issue n body c :
  IssueComment.issue (set_body n body c) = IssueComment.issue c.
Proof. unfold set_body. now destruct (Z.eqb _ _). Qed.

Lemma set_body_other n body c :
  IssueComment.id c <> n -> set_body n body c = c.
Proof.
  intros H. unfold set_body. apply Z.eqb_neq in H. now rewrite H.
Qed.

Lemma set_body_same body c :
  IssueComment.body (set_body (IssueComment.id c) body c) = Some body.
Proof. unfold set_body. now rewrite Z.eqb_refl. Qed.

Lemma filter_map_invariant {A} (p : A -> bool) (f : A -> A) (l : list A) :
  (forall x, p (f x) = p x) ->
  filter p (map f l) = map f (filter p l).
Proof.
  intros H. induction l as [|x l IH]; simpl; [reflexivity|].
  rewrite H. destruct (p x); simpl; now rewrite IH.
Qed.

(** The identifiers stay unique among the comments of one issue. *)
Lemma issue_comments_ids_unique issueNumber w :
  NoDup (map IssueComment.id (comments w)) ->
  NoDup (map IssueComment.id (issue_comments issueNumber w)).
Proof.
  unfold issue_comments. generalize (comments w) as cs.
  intros cs Hcs. induction cs as [|c cs IH]; [exact Hcs|].
  apply NoDup_cons_iff in Hcs. destruct Hcs as [Hfresh Hcs].
  cbn [filter].
  destruct (Z.eqb (IssueComment.issue c) issueNumber); [|now apply IH].
  cbn [map]. apply NoDup_cons; [|now apply IH].
  contradict Hfresh. apply in_map_iff in Hfresh.
  destruct Hfresh as [c' [Hid Hin]]. rewrite <- Hid.
  apply in_map. apply filter_In in Hin. apply Hin.
Qed.

Lemma filter_set_body_none marker n body l :
  (forall c, In c l ->
             IssueComment.id c <> n /\ has_marker marker c = false) ->
  filter (has_marker marker) (map (set_body n body) l) = [].
Proof.
  induction l as [|c l IH]; intros H; simpl; [reflexivity|].
  destruct (H c (or_introl eq_refl)) as [Hid Hm].
  rewrite (set_body_other _ _ _ Hid), Hm. apply IH.
  intros c' Hin. apply H. now right.
Qed.

Lemma filter_nil_forall {A} (p : A -> bool) (l : list A) :
  filter p l = [] -> forall x, In x l -> p x = false.
Proof.
  intros H x Hin. destruct (p x) eqn:E; [|reflexivity].
  assert (Hf : In x (filter p l)) by (apply filter_In; now split).
  rewrite H in Hf. destruct Hf.
Qed.

(** Updating the one comment that holds the marker leaves one comment that
    holds it, the updated one. *)
Lemma filter_set_body_one marker body cm l :
  NoDup (map IssueComment.id l) ->
  filter (has_marker marker) l = [cm] ->
  has_marker marker (set_body (IssueComment.id cm) body cm) = true ->
  filter (has_marker marker) (map (set_body (IssueComment.id cm) body) l) =
    [set_body (IssueComment.id cm) body cm].
Proof.
  intros Hnd Hf Hm. induction l as [|c l IH]; simpl in *; [discriminate|].
  inversion Hnd as [|? ? Hnotin Hnd']; subst.
  destruct (has_marker marker c) eqn:E.
  - injection Hf as -> Hrest. rewrite Hm. f_equal.
    apply filter_set_body_none. intros c' Hin. split.
    + intros Heq. apply Hnotin. rewrite <- Heq. now apply in_map.
    + now apply (filter_nil_forall _ _ Hrest).
  - assert (Hin : In cm l).
    { assert (H : In cm (filter (has_marker marker) l))
        by (rewrite Hf; now left).
      now apply filter_In in H. }
    assert (Hne : IssueComment.id c <> IssueComment.id cm).
    { intros Heq. apply Hnotin. rewrite Heq. now apply in_map. }
    rewrite (set_body_other _ _ _ Hne), E. now apply IH.
Qed.

Lemma has_marker_composed env ctx c issueNumber n :
  has_marker (marker_of (CommentText.markerText c))
    {| IssueComment.issue := issueNumber; IssueComment.id := n;
       IssueComment.body := Some (body_of env ctx c) |} = true.
Proof.
  unfold has_marker. cbn [IssueComment.body].
  apply includes_prefix, body_of_prefix.
Qed.

(** One run of [comment] on a store that holds at most one comment with
    the marker: it succeeds and leaves exactly one, with the composed
    body. *)
Lemma comment_upserts ctx issueNumber c w :
  no_faults w -> store_ok w -> paginate_ok w ->
  length (filter (has_marker (marker_of (CommentText.markerText c)))
            (issue_comments issueNumber w)) <= 1 ->
  exists w',
    run (comment ctx issueNumber c) w = (Ok tt, w') /\
    no_faults w' /\ store_ok w' /\
    exists cm,
      filter (has_marker (marker_of (CommentText.markerText c)))
        (issue_comments issueNumber w') = [cm] /\
      IssueComment.body cm = Some (body_of (GITHUB_RUN_ATTEMPT w) ctx c).
Proof.
  intros Hw [Hnd [Hnext Hids]] Hpg Hone.
  rewrite (comment_no_faults ctx issueNumber c w Hw). cbv zeta.
  set (marker := marker_of (CommentText.markerText c)) in *.
  set (body := body_of (GITHUB_RUN_ATTEMPT w) ctx c).
  set (p := issueParameters_of ctx issueNumber).
  set (listed := with_log _ w).
  assert (Hl : no_faults listed) by exact Hw.
  assert (Hcat : concat (pages_of issueNumber w) = issue_comments issueNumber w)
    by apply Hpg.
  destruct (filter (has_marker marker) (issue_comments issueNumber w))
    as [|cm [|cm' rest]] eqn:F; [| |simpl in Hone; lia].
  - (* no comment holds the marker: one is created *)
    rewrite scan_pages_no_match
      by (rewrite Hcat; apply (filter_nil_forall _ _ F)).
    simpl. rewrite (createComment_no_faults _ _ _ Hl).
    eexists. split; [reflexivity|]. split; [exact Hw|]. split.
    + unfold store_ok. simpl. split; [|split].
      * rewrite map_app. apply NoDup_app; [exact Hnd | repeat constructor; intros [] |].
        intros a Hin [<-|[]]. apply in_map_iff in Hin.
        destruct Hin as [x [Hx Hinx]]. rewrite Forall_forall in Hids.
        apply Hids in Hinx. unfold listed in Hx. simpl in Hx. lia.
      * lia.
      * apply Forall_app. split.
        -- eapply Forall_impl; [|exact Hids]. simpl. intros; lia.
        -- repeat constructor; simpl; lia.
    + exists {| IssueComment.issue := issueNumber;
                IssueComment.id := next_id w;
                IssueComment.body := Some body |}.
      split; [|reflexivity].
      unfold issue_comments. simpl. rewrite filter_app. simpl.
      rewrite Z.eqb_refl. rewrite filter_app.
      fold (issue_comments issueNumber w). rewrite F. simpl.
      unfold marker, body. now rewrite has_marker_composed.
  - (* one comment holds the marker: it is updated *)
    assert (Hcm : In cm (issue_comments issueNumber w) /\
                  has_marker marker cm = true).
    { apply filter_In. rewrite F. now left. }
    destruct Hcm as [Hin Hm].
    assert (Hstore : In cm (comments w)).
    { unfold issue_comments in Hin. now apply filter_In in Hin. }
    assert (Hscan : scan_pages marker (pages_of issueNumber w) None =
                    Some (IssueComment.id cm)).
    { rewrite <- Hcat in Hin.
      destruct (scan_pages_match marker _ cm None Hin Hm) as [n Hn].
      rewrite Hn. apply scan_pages_some in Hn.
      destruct Hn as [Hn | [c' [Hin' [Hm' Hid']]]]; [discriminate|].
      rewrite Hcat in Hin'.
      assert (Hf : In c' (filter (has_marker marker)
                            (issue_comments issueNumber w)))
        by (apply filter_In; now split).
      rewrite F in Hf. destruct Hf as [<-|[]]. now rewrite Hid'. }
    rewrite Hscan. simpl.
    assert (Hnz : Z.eqb (IssueComment.id cm) 0 = false).
    { apply Z.eqb_neq. rewrite Forall_forall in Hids.
      apply Hids in Hstore. lia. }
    rewrite Hnz.
    rewrite (updateComment_no_faults _ _ _ _ Hl) by (exists cm; now split).
    eexists. split; [reflexivity|]. split; [exact Hw|]. split.
    + unfold store_ok. simpl. split; [|split].
      * rewrite map_map.
        erewrite map_ext; [exact Hnd | intros; apply set_body_id].
      * exact Hnext.
      * apply Forall_map. eapply Forall_impl; [|exact Hids].
        simpl. intros a Ha. now rewrite set_body_id.
    + exists (set_body (IssueComment.id cm) body cm).
      split; [|apply set_body_same].
      unfold issue_comments. simpl.
      rewrite filter_map_invariant
        by (intros x; now rewrite set_body_issue).
      fold (issue_comments issueNumber w).
      apply filter_set_body_one.
      * now apply issue_comments_ids_unique.
      * exact F.
      * unfold has_marker. rewrite set_body_same.
        apply includes_prefix, body_of_prefix.
Qed.

End Store.

Lemma pages_by_concat fuel per_page l :
  concat (Samples.pages_by fuel per_page l) = l.
Proof.
  revert l. induction fuel as [|fuel IH]; intros l; destruct l as [|x l];
    try reflexivity.
  - simpl. now rewrite app_nil_r.
  - change (Samples.pages_by (S fuel) per_page (x :: l))
      with (firstn per_page (x :: l) ::
            Samples.pages_by fuel per_page (skipn per_page (x :: l))).
    simpl concat. rewrite IH. apply firstn_skipn.
Qed.

Lemma sample_paginate_ok cs next per_page rejections :
  paginate_ok (Samples.world cs next per_page rejections).
Proof.
  intros l. simpl. unfold Samples.pages.
  destruct l; [reflexivity | apply pages_by_concat].
Qed.

(** C1 (amended): on an issue that holds at most one comment with the marker
    token of M, with identifiers as GitHub assigns them, a listing that
    pages all comments and requests that succeed, two runs of [comment] with
    the same issue and marker both succeed and leave exactly one comment of
    the issue whose body holds the token; its body is the body composed by
    the second run. *)
Theorem comment_twice_leaves_latest ctx issueNumber c1 c2 w :
  no_faults w -> store_ok w -> paginate_ok w ->
  CommentText.markerText c1 = CommentText.markerText c2 ->
  let marker := marker_of (CommentText.markerText c2) in
  length (filter (has_marker marker) (issue_comments issueNumber w)) <= 1 ->
  exists w1 w2 cm,
    run (comment ctx issueNumber c1) w = (Ok tt, w1) /\
    run (comment ctx issueNumber c2) w1 = (Ok tt, w2) /\
    filter (has_marker marker) (issue_comments issueNumber w2) = [cm] /\
    IssueComment.body cm = Some (body_of (GITHUB_RUN_ATTEMPT w) ctx c2).
Proof.
  intros Hw Hok Hpg Hsame marker Hone. unfold marker in *.
  rewrite <- Hsame in Hone.
  destruct (comment_upserts ctx issueNumber c1 w Hw Hok Hpg Hone)
    as [w1 [Hrun1 [Hw1 [Hok1 [cm1 [Hf1 _]]]]]].
  pose proof (comment_surroundings ctx issueNumber c1 w) as Hsame1.
  rewrite Hrun1 in Hsame1. simpl in Hsame1.
  destruct Hsame1 as [_ [Henv [Hpage _]]].
  rewrite Hsame in Hf1.
  assert (Hpg1 : paginate_ok w1).
  { intros l. rewrite Hpage. apply Hpg. }
  assert (Hone1 : length (filter
                    (has_marker (marker_of (CommentText.markerText c2)))
                    (issue_comments issueNumber w1)) <= 1).
  { rewrite Hf1. simpl. lia. }
  destruct (comment_upserts ctx issueNumber c2 w1 Hw1 Hok1 Hpg1 Hone1)
    as [w2 [Hrun2 [_ [_ [cm [Hf2 Hbody]]]]]].
  exists w1, w2, cm. rewrite <- Henv. now repeat split.
Qed.

(** Two posts on an issue without comments. *)
Lemma comment_twice_leaves_latest_witness :
  let w := Samples.world [] 1 30 [] in
  no_faults w /\ store_ok w /\ paginate_ok w /\
  exists w1 w2 cm,
    run (comment Samples.ctx 7 (Samples.text "first")) w = (Ok tt, w1) /\
    run (comment Samples.ctx 7 (Samples.text "second")) w1 = (Ok tt, w2) /\
    filter (has_marker Samples.marker) (issue_comments 7 w2) = [cm] /\
    IssueComment.body cm =
      Some (body_of (Some "1") Samples.ctx (Samples.text "second")).
Proof.
  intros w.
  assert (Hok : store_ok w).
  { unfold store_ok. simpl. repeat split; try constructor. }
  split; [reflexivity|]. split; [exact Hok|].
  split; [apply sample_paginate_ok|].
  apply (comment_twice_leaves_latest Samples.ctx 7
           (Samples.text "first") (Samples.text "second") w
           eq_refl Hok (sample_paginate_ok _ _ _ _) eq_refl).
  simpl. lia.
Defined.

(** C1, as stated, fails: on an issue that already holds two comments with
    the marker, two posts leave two comments whose body holds it. *)
Lemma comment_twice_keeps_duplicates :
  let w := Samples.world
             [Samples.stored 1 Samples.marker; Samples.stored 2 Samples.marker]
             3 30 [] in
  let w1 := snd (run (comment Samples.ctx 7 (Samples.text "first")) w) in
  let w2 := snd (run (comment Samples.ctx 7 (Samples.text "second")) w1) in
  store_ok w /\
  fst (run (comment Samples.ctx 7 (Samples.text "first")) w) = Ok tt /\
  fst (run (comment Samples.ctx 7 (Samples.text "second")) w1) = Ok tt /\
  filter (has_marker Samples.marker) (issue_comments 7 w2) =
    [Samples.stored 1 (body_of (Some "1") Samples.ctx (Samples.text "second"));
     Samples.stored 2 Samples.marker].
Proof.
  intros w w1 w2. split; [|repeat split].
  unfold store_ok. simpl. split; [|split; [lia|]].
  - repeat constructor; simpl; intuition discriminate.
  - repeat constructor; simpl; lia.
Qed.

(** ** Relations every step keeps *)

Section Invariants.

Variable R : World -> World -> Prop.
Hypothesis R_refl : forall w, R w w.
Hypothesis R_trans : forall w1 w2 w3, R w1 w2 -> R w2 w3 -> R w1 w3.

Lemma step_nth_respects pending :
  forall i w,
    Forall (Respects R) pending ->
    Forall (Respects R) (fst (step_nth i pending w)) /\
    R w (snd (step_nth i pending w)).
Proof.
  induction pending as [|m pending IH]; intros i w H; simpl.
  - split; [constructor | apply R_refl].
  - inversion H as [|? ? Hm Hrest]; subst. destruct i as [|i].
    + destruct (Respects_step_inv R R_refl m w Hm) as [Hm' Hs].
      destruct (step m w) as [m' w']. simpl in *.
      split; [now constructor | exact Hs].
    + destruct (IH i w Hrest) as [Hrest' Hs].
      destruct (step_nth i pending w) as [pending' w']. simpl in *.
      split; [now constructor | exact Hs].
Qed.

Lemma interleave_respects schedule :
  forall pending w,
    Forall (Respects R) pending ->
    Forall (Respects R) (fst (interleave schedule pending w)) /\
    R w (snd (interleave schedule pending w)).
Proof.
  induction schedule as [|i later IH]; intros pending w H; simpl.
  - split; [exact H | apply R_refl].
  - destruct (step_nth_respects pending i w H) as [H' Hs].
    destruct (step_nth i pending w) as [pending' w']. simpl in *.
    destruct (IH pending' w' H') as [H'' Hs'].
    split; [exact H'' | eapply R_trans; eassumption].
Qed.

Lemma settle_all_respects pending :
  forall w, Forall (Respects R) pending -> R w (snd (settle_all pending w)).
Proof.
  induction pending as [|m pending IH]; intros w H; simpl.
  - apply R_refl.
  - inversion H as [|? ? Hm Hrest]; subst.
    pose proof (Respects_run R R_refl R_trans m Hm w) as Hs.
    destruct (run m w) as [r w1]. simpl in Hs.
    specialize (IH w1 Hrest).
    destruct (settle_all pending w1) as [results w2]. simpl in *.
    eapply R_trans; eassumption.
Qed.

Lemma allSettled_respects schedule pending w :
  Forall (Respects R) pending ->
  R w (snd (allSettled schedule pending w)).
Proof.
  intros H. unfold allSettled.
  destruct (interleave_respects schedule pending w H) as [H' Hs].
  destruct (interleave schedule pending w) as [pending' w1]. simpl in *.
  pose proof (settle_all_respects pending' w1 H') as Hs'.
  destruct (settle_all pending' w1) as [results w2]. simpl in *.
  eapply R_trans; eassumption.
Qed.

(** What the steps of the scripts must do for [R] to hold of a run. *)
Hypothesis R_request : forall c w, R w (snd (request c w)).
Hypothesis R_readFile : forall path w, R w (snd (readFile path w)).
Hypothesis R_create : forall p body w, R w (snd (createComment p body w)).
Hypothesis R_update : forall p body n w, R w (snd (updateComment p body n w)).

Lemma for_await_pages_keeps p marker pages :
  forall page commentId,
    Respects R (for_await_pages p marker page pages commentId).
Proof.
  induction pages as [|comments rest IH]; intros page commentId.
  - constructor.
  - cbn [for_await_pages]. apply Respects_bind.
    + apply Respects_await, R_request.
    + intros _. apply IH.
Qed.

Lemma comment_keeps ctx issueNumber c :
  Respects R (comment ctx issueNumber c).
Proof.
  unfold comment. apply Respects_bind.
  { apply Respects_await. intros w. apply R_refl. }
  intros attempt. apply Respects_bind.
  { apply Respects_await. intros w. apply R_refl. }
  intros pages. apply Respects_bind; [apply for_await_pages_keeps|].
  intros [n|]; [destruct (Z.eqb n 0)|]; apply Respects_await; auto.
Qed.

Lemma commentDiff_keeps ctx issueNumber d :
  Respects R (commentDiff ctx issueNumber d).
Proof.
  unfold commentDiff. apply Respects_bind.
  { apply Respects_await, R_readFile. }
  intros text. apply Respects_try_catch; [apply comment_keeps|].
  apply Respects_bind.
  { apply Respects_await. intros w. apply R_refl. }
  intros attempt. apply comment_keeps.
Qed.

Lemma commentDiffs_keeps schedule ctx issueNumber diffs :
  Respects R (commentDiffs schedule ctx issueNumber diffs).
Proof.
  unfold commentDiffs. apply Respects_bind.
  - apply Respects_await. intros w. apply allSettled_respects.
    apply Forall_forall. intros m Hin. apply in_map_iff in Hin.
    destruct Hin as [d [<- _]]. apply commentDiff_keeps.
  - intros results. destruct (Js.some is_rejected results); constructor.
Qed.

(** Whatever the requests that reject and whatever the schedule, [R] holds
    between the world before and the world after each of the three
    functions. *)
Lemma scripts_keep ctx issueNumber :
  (forall c w, R w (snd (run (comment ctx issueNumber c) w))) /\
  (forall d w, R w (snd (run (commentDiff ctx issueNumber d) w))) /\
  (forall schedule diffs w,
      R w (snd (run (commentDiffs schedule ctx issueNumber diffs) w))).
Proof.
  repeat split; intros; apply (Respects_run R R_refl R_trans).
  - apply comment_keeps.
  - apply commentDiff_keeps.
  - apply commentDiffs_keeps.
Qed.

End Invariants.

Lemma keeps_comments_refl w : keeps_comments w w.
Proof. exists []. now rewrite app_nil_r. Qed.

Lemma keeps_comments_trans w1 w2 w3 :
  keeps_comments w1 w2 -> keeps_comments w2 w3 -> keeps_comments w1 w3.
Proof.
  intros [a Ha] [b Hb]. exists (a ++ b)%list.
  now rewrite Hb, Ha, app_assoc.
Qed.

Lemma request_comments c w :
  comments (snd (request c w)) = comments w /\
  next_id (snd (request c w)) = next_id w.
Proof. unfold request. destruct (faults w) as [|[] ?]; now split. Qed.

Lemma set_body_key n body c : key (set_body n body c) = key c.
Proof. unfold key, set_body. now destruct (Z.eqb _ _). Qed.

Lemma keeps_comments_request c w : keeps_comments w (snd (request c w)).
Proof.
  exists []. destruct (request_comments c w) as [-> _].
  now rewrite app_nil_r.
Qed.

Lemma keeps_comments_readFile path w :
  keeps_comments w (snd (readFile path w)).
Proof.
  exists []. unfold readFile. rewrite app_nil_r.
  now destruct (files w path).
Qed.

Lemma keeps_comments_create p body w :
  keeps_comments w (snd (createComment p body w)).
Proof.
  unfold createComment.
  destruct (request_comments (CreateComment p body) w) as [Hc _].
  unfold keeps_comments.
  destruct (request (CreateComment p body) w) as [[[]|e] w']; simpl in *.
  - rewrite Hc, map_app. eexists. reflexivity.
  - exists []. now rewrite Hc, app_nil_r.
Qed.

Lemma keeps_comments_update p body n w :
  keeps_comments w (snd (updateComment p body n w)).
Proof.
  unfold updateComment.
  destruct (request_comments (UpdateComment p body n) w) as [Hc _].
  unfold keeps_comments.
  destruct (request (UpdateComment p body n) w) as [[[]|e] w']; simpl in *;
    [destruct (existsb _ _); simpl|]; exists []; rewrite app_nil_r;
    rewrite ?Hc; try reflexivity.
  rewrite map_map. apply map_ext. intros a. apply set_body_key.
Qed.

(** ** commentDiffs *)

(** *** The reports, interleaved *)

Lemma step_interleaved before m after w outcomes w' :
  Interleaved (before ++ fst (step m w) :: after)%list (snd (step m w))
    outcomes w' ->
  Interleaved (before ++ m :: after)%list w outcomes w'.
Proof.
  destruct m as [r|X op k]; simpl; [auto|].
  intros H. apply Interleaved_step. now destruct (op w).
Qed.

Lemma step_nth_interleaved pending :
  forall before i w outcomes w',
    Interleaved (before ++ fst (step_nth i pending w))%list
      (snd (step_nth i pending w)) outcomes w' ->
    Interleaved (before ++ pending)%list w outcomes w'.
Proof.
  induction pending as [|m rest IH]; intros before i w outcomes w' H.
  - exact H.
  - destruct i as [|j]; cbn [step_nth] in H.
    + apply step_interleaved. now destruct (step m w).
    + specialize (IH (before ++ [m])%list j w outcomes w').
      rewrite <- !app_assoc in IH. apply IH.
      now destruct (step_nth j rest w).
Qed.

Lemma interleave_interleaved schedule :
  forall pending w outcomes w',
    Interleaved (fst (interleave schedule pending w))
      (snd (interleave schedule pending w)) outcomes w' ->
    Interleaved pending w outcomes w'.
Proof.
  induction schedule as [|i later IH]; intros pending w outcomes w' H.
  - exact H.
  - cbn [interleave] in H.
    apply (step_nth_interleaved pending [] i w).
    destruct (step_nth i pending w) as [pending' w1]. now apply IH.
Qed.

(** A function run alone from its first step to its last is one way of
    taking its steps. *)
Lemma run_interleaved m :
  forall before after w outcomes w',
    Interleaved (before ++ Done (fst (run m w)) :: after)%list
      (snd (run m w)) outcomes w' ->
    Interleaved (before ++ m :: after)%list w outcomes w'.
Proof.
  induction m as [r|X op k IH]; intros before after w outcomes w' H.
  - exact H.
  - apply Interleaved_step. apply IH. cbn [run] in H.
    now destruct (op w).
Qed.

Lemma settle_all_interleaved pending :
  forall settled_before w,
  exists outcomes,
    fst (settle_all pending w) = map settled outcomes /\
    Interleaved (map Done settled_before ++ pending)%list w
      (settled_before ++ outcomes)%list (snd (settle_all pending w)).
Proof.
  induction pending as [|m rest IH]; intros settled_before w.
  - exists []. split; [reflexivity|]. rewrite !app_nil_r. constructor.
  - cbn [settle_all].
    destruct (run m w) as [r w1] eqn:E.
    destruct (IH (settled_before ++ [r])%list w1) as [outcomes [Hres Hrun]].
    destruct (settle_all rest w1) as [results w2]. cbn [fst snd] in *.
    exists (r :: outcomes). split; [now rewrite Hres|].
    apply run_interleaved. rewrite E. cbn [fst snd].
    rewrite map_app, <- !app_assoc in Hrun. exact Hrun.
Qed.

(** Whatever the schedule and whatever the promised functions,
    [allSettled] takes every one of them to its end, and its results are,
    place by place, what each settled with. *)
Lemma allSettled_interleaved schedule promises w :
  exists outcomes,
    Interleaved promises w outcomes (snd (allSettled schedule promises w)) /\
    fst (allSettled schedule promises w) = Ok (map settled outcomes).
Proof.
  unfold allSettled.
  pose proof (interleave_interleaved schedule promises w) as Hi.
  destruct (interleave schedule promises w) as [pending w1].
  destruct (settle_all_interleaved pending [] w1) as [outcomes [Hres Hrun]].
  destruct (settle_all pending w1) as [results w2]. cbn [fst snd] in *.
  exists outcomes. split; [now apply Hi | now rewrite Hres].
Qed.

Lemma settle_all_settled outcomes w :
  settle_all (map Done outcomes) w = (map settled outcomes, w).
Proof.
  induction outcomes as [|r outcomes IH]; cbn [map settle_all run];
    [reflexivity | now rewrite IH].
Qed.

Lemma step_nth_here before X (op : Async X) k after w :
  step_nth (length before) (before ++ Step op k :: after)%list w =
  ((before ++ k (fst (op w)) :: after)%list, snd (op w)).
Proof.
  induction before as [|m before IH]; cbn [length app step_nth].
  - cbn [step]. now destruct (op w).
  - now rewrite IH.
Qed.

(** Every order in which the functions can take their steps is the one
    some schedule names. *)
Lemma Interleaved_scheduled pending w outcomes w' :
  Interleaved pending w outcomes w' ->
  exists schedule,
    allSettled schedule pending w = (Ok (map settled outcomes), w').
Proof.
  unfold allSettled.
  induction 1 as [outcomes w|before X op k after w outcomes w' _ [schedule IH]].
  - exists []. cbn [interleave]. now rewrite settle_all_settled.
  - exists (length before :: schedule). cbn [interleave].
    rewrite step_nth_here. exact IH.
Qed.

(** A property of each function in progress that its own steps and the
    steps of the others keep holds of what each settled with. *)
Section InterleavedInvariant.

Variable D : Type.
Variable Inv : World -> D -> Prog unit -> Prop.
Hypothesis Inv_own :
  forall w d m, Inv w d m -> Inv (snd (step m w)) d (fst (step m w)).
Hypothesis Inv_other :
  forall w d m d' m',
    Inv w d m -> Inv w d' m' -> Inv (snd (step m w)) d' m'.

Lemma Interleaved_invariant pending w outcomes w' :
  Interleaved pending w outcomes w' ->
  forall ds,
    Forall2 (Inv w) ds pending ->
    Forall2 (fun d r => Inv w' d (Done r)) ds outcomes.
Proof.
  induction 1 as [outcomes w|before X op k after w outcomes w' _ IH];
    intros ds Hds.
  - revert ds Hds. induction outcomes as [|r outcomes IH]; intros ds Hds;
      inversion Hds; subst; constructor; auto.
  - apply IH.
    apply Forall2_app_inv_r in Hds.
    destruct Hds as [ds1 [ds2 [H1 [H2 ->]]]].
    inversion H2 as [|d ? ds3 ? Hd H3]; subst.
    pose proof (Inv_own w d (Step op k) Hd) as Hown.
    pose proof (fun d' m' => Inv_other w d (Step op k) d' m' Hd) as Hoth.
    cbn [step] in Hown, Hoth. destruct (op w) as [r w1]. cbn [fst snd] in *.
    apply Forall2_app; [|constructor; [exact Hown|]];
      (eapply Forall2_impl; [|eassumption]); intros; now apply Hoth.
Qed.

End InterleavedInvariant.

(** *** What a step leaves in place *)

Lemma step_effect_refl w : step_effect w w.
Proof.
  split; [apply same_surroundings_refl|].
  split; [apply keeps_comments_refl | auto].
Qed.

Lemma step_effect_trans w1 w2 w3 :
  step_effect w1 w2 -> step_effect w2 w3 -> step_effect w1 w3.
Proof.
  intros [A [B C]] [A' [B' C']]. split; [|split].
  - eapply same_surroundings_trans; eassumption.
  - eapply keeps_comments_trans; eassumption.
  - auto.
Qed.

Lemma request_faults c w : no_faults w -> no_faults (snd (request c w)).
Proof. intros H. now rewrite (request_no_faults _ _ H). Qed.

Lemma step_effect_request c w : step_effect w (snd (request c w)).
Proof.
  split; [apply request_surroundings|].
  split; [apply keeps_comments_request | apply request_faults].
Qed.

Lemma step_effect_readFile path w : step_effect w (snd (readFile path w)).
Proof.
  split; [apply readFile_surroundings|].
  split; [apply keeps_comments_readFile|].
  unfold no_faults, readFile. now destruct (files w path).
Qed.

Lemma step_effect_create p body w :
  step_effect w (snd (createComment p body w)).
Proof.
  split; [apply createComment_surroundings|].
  split; [apply keeps_comments_create|].
  unfold createComment. intros H.
  now rewrite (request_no_faults _ _ H).
Qed.

Lemma step_effect_update p body n w :
  step_effect w (snd (updateComment p body n w)).
Proof.
  split; [apply updateComment_surroundings|].
  split; [apply keeps_comments_update|].
  unfold updateComment. intros H.
  rewrite (request_no_faults _ _ H). now destruct (existsb _ _).
Qed.

Lemma commentDiff_step_effect ctx issueNumber d :
  Respects step_effect (commentDiff ctx issueNumber d).
Proof.
  apply (commentDiff_keeps step_effect step_effect_refl).
  - apply step_effect_request.
  - apply step_effect_readFile.
  - apply step_effect_create.
  - apply step_effect_update.
Qed.

Lemma step_effect_logged w0 w w1 l :
  log w = (log w0 ++ l)%list -> step_effect w w1 ->
  exists l1, log w1 = (log w0 ++ l ++ l1)%list.
Proof.
  intros E [[_ [_ [_ [l1 E1]]]] _]. exists l1.
  now rewrite E1, E, app_assoc.
Qed.

Lemma step_effect_log w w1 :
  step_effect w w1 -> exists l, log w1 = (log w ++ l)%list.
Proof. now intros [[_ [_ [_ H]]] _]. Qed.

Lemma step_effect_files w w1 : step_effect w w1 -> files w1 = files w.
Proof. now intros [[H _] _]. Qed.

Lemma step_effect_env w w1 :
  step_effect w w1 -> GITHUB_RUN_ATTEMPT w1 = GITHUB_RUN_ATTEMPT w.
Proof. now intros [[_ [H _]] _]. Qed.

Lemma step_effect_paginate_ok w w1 :
  step_effect w w1 -> paginate_ok w -> paginate_ok w1.
Proof.
  intros [[_ [_ [H _]]] _] Hp l. rewrite H. apply Hp.
Qed.

Lemma step_effect_no_faults w w1 :
  step_effect w w1 -> no_faults w -> no_faults w1.
Proof. now intros [_ [_ H]]. Qed.

Lemma step_effect_ids w w1 n :
  step_effect w w1 ->
  In n (map IssueComment.id (comments w)) ->
  In n (map IssueComment.id (comments w1)).
Proof.
  intros [_ [[created Hk] _]] Hin.
  assert (E : forall cs,
             map IssueComment.id cs = map snd (map key cs)).
  { intros cs. now rewrite map_map. }
  rewrite E in *. rewrite Hk, map_app. apply in_or_app. now left.
Qed.

(** *** A report returns when no request is rejected *)

Lemma unfailing_later m w w1 :
  step_effect w w1 -> unfailing m w -> unfailing m w1.
Proof.
  destruct m as [r|X op k]; cbn [unfailing]; [auto|].
  intros Hs H w2 Hs2. apply H. eapply step_effect_trans; eassumption.
Qed.

Lemma unfailing_try_catch m handler :
  forall w, unfailing m w -> unfailing (try_catch m handler) w.
Proof.
  induction m as [r|X op k IH]; intros w H; cbn [unfailing try_catch] in *.
  - subst. reflexivity.
  - intros w1 Hs Hf Hp. apply IH. now apply H.
Qed.

Lemma unfailing_bind_await {X} (op : Async X) (K : X -> Prog unit) w :
  (forall w1, step_effect w w1 -> no_faults w1 -> paginate_ok w1 ->
     exists x, fst (op w1) = Ok x /\ unfailing (K x) (snd (op w1))) ->
  unfailing (bind (await op) K) w.
Proof.
  intros H. cbn [bind await unfailing]. intros w1 Hs Hf Hp.
  destruct (H w1 Hs Hf Hp) as [x [E Hu]]. rewrite E. exact Hu.
Qed.

Lemma unfailing_create p body w :
  unfailing (await (createComment p body)) w.
Proof.
  cbn [await unfailing]. intros w1 _ Hf _.
  unfold createComment. now rewrite (request_no_faults _ _ Hf).
Qed.

Lemma unfailing_update p body n w :
  In n (map IssueComment.id (comments w)) ->
  unfailing (await (updateComment p body n)) w.
Proof.
  intros Hin. cbn [await unfailing]. intros w1 Hs Hf _.
  apply (step_effect_ids _ _ _ Hs) in Hin.
  unfold updateComment. rewrite (request_no_faults _ _ Hf).
  cbn [comments with_log].
  assert (E : existsb (fun c => Z.eqb (IssueComment.id c) n) (comments w1)
              = true).
  { apply existsb_exists. apply in_map_iff in Hin.
    destruct Hin as [c [<- Hc]]. exists c. split; [exact Hc|].
    apply Z.eqb_refl. }
  now rewrite E.
Qed.

Lemma unfailing_loop p marker (K : option Z -> Prog unit) pages :
  forall page commentId w,
    (forall c, In c (concat pages) ->
               In (IssueComment.id c) (map IssueComment.id (comments w))) ->
    (forall n, commentId = Some n ->
               In n (map IssueComment.id (comments w))) ->
    (forall found w1,
        step_effect w w1 ->
        (forall n, found = Some n ->
                   In n (map IssueComment.id (comments w1))) ->
        unfailing (K found) w1) ->
    unfailing (bind (for_await_pages p marker page pages commentId) K) w.
Proof.
  induction pages as [|comments rest IH];
    intros page commentId w Hpages Hid HK.
  - cbn [for_await_pages ret bind].
    apply HK; [apply step_effect_refl | exact Hid].
  - cbn [for_await_pages bind await unfailing]. intros w1 Hs Hf Hp.
    rewrite (request_no_faults _ _ Hf). cbn [fst snd bind].
    assert (Hs1 : step_effect w
                    (with_log (log w1 ++ [ListComments p page])%list w1)).
    { eapply step_effect_trans; [exact Hs|].
      pose proof (step_effect_request (ListComments p page) w1) as H.
      now rewrite (request_no_faults _ _ Hf) in H. }
    apply IH.
    + intros c Hc. apply (step_effect_ids _ _ _ Hs1), Hpages.
      cbn [concat]. apply in_or_app. now right.
    + intros n. unfold scan_page, Js.find.
      destruct (find (has_marker marker) comments) as [c|] eqn:E.
      * intros [= <-]. apply find_some in E.
        apply (step_effect_ids _ _ _ Hs1), Hpages.
        cbn [concat]. apply in_or_app. left. apply E.
      * intros Hn. apply (step_effect_ids _ _ _ Hs1), Hid, Hn.
    + intros found w2 Hs2. apply HK.
      eapply step_effect_trans; eassumption.
Qed.

(** With no request rejected, [comment] returns: the identifier it updates
    at was listed, and no comment is ever removed. *)
Lemma unfailing_comment ctx issueNumber c w :
  unfailing (comment ctx issueNumber c) w.
Proof.
  unfold comment. apply unfailing_bind_await. intros w1 _ _ _.
  exists (GITHUB_RUN_ATTEMPT w1). split; [reflexivity|].
  cbn [process_env_GITHUB_RUN_ATTEMPT snd].
  apply unfailing_bind_await. intros w2 _ _ Hp2.
  eexists. split; [reflexivity|]. cbn [listComments_pages snd].
  apply unfailing_loop.
  - intros cm Hin. rewrite Hp2 in Hin. apply filter_In in Hin.
    apply in_map, Hin.
  - discriminate.
  - intros [n|] w3 _ Hn; [|apply unfailing_create].
    destruct (Z.eqb n 0); [apply unfailing_create|].
    apply unfailing_update, Hn. reflexivity.
Qed.

Lemma unfailing_commentDiff ctx issueNumber d w text :
  files w (DiffComment.path d) = Some text ->
  unfailing (commentDiff ctx issueNumber d) w.
Proof.
  intros Htext. unfold commentDiff. apply unfailing_bind_await.
  intros w1 Hs _ _. exists text. split.
  - unfold readFile. now rewrite (step_effect_files _ _ Hs), Htext.
  - apply unfailing_try_catch, unfailing_comment.
Qed.

(** *** A report that returned has posted *)

Lemma owes_try_catch Q w0 m handler :
  owes Q w0 m -> owes Q w0 handler -> owes Q w0 (try_catch m handler).
Proof.
  intros Hm Hh. induction m as [r|X op k IH]; cbn [owes try_catch] in *.
  - destruct Hm as [e ->]. exact Hh.
  - intros w Hs. destruct (Hm w Hs) as [H|H]; [left; now apply IH | now right].
Qed.

Lemma owes_bind_await {X} Q w0 (op : Async X) (K : X -> Prog unit) :
  (forall w x, step_effect w0 w -> fst (op w) = Ok x -> owes Q w0 (K x)) ->
  owes Q w0 (bind (await op) K).
Proof.
  intros H. cbn [bind await owes]. intros w Hs. left.
  specialize (H w). destruct (fst (op w)) as [x|e]; cbn [bind].
  - now apply H.
  - cbn [owes]. eauto.
Qed.

Lemma owes_post Q w0 (op : Async unit) c :
  Q c -> (forall w, log (snd (op w)) = (log w ++ [c])%list) ->
  owes Q w0 (await op).
Proof.
  intros HQ Hlog. cbn [await owes]. intros w _. right.
  exists [c], c. split; [apply Hlog|]. split; [now left | exact HQ].
Qed.

Lemma request_log c w : log (snd (request c w)) = (log w ++ [c])%list.
Proof. unfold request. now destruct (faults w) as [|[] ?]. Qed.

Lemma createComment_log p body w :
  log (snd (createComment p body w)) = (log w ++ [CreateComment p body])%list.
Proof.
  unfold createComment.
  pose proof (request_log (CreateComment p body) w) as H.
  now destruct (request (CreateComment p body) w) as [[[]|e] w1].
Qed.

Lemma updateComment_log p body n w :
  log (snd (updateComment p body n w)) =
  (log w ++ [UpdateComment p body n])%list.
Proof.
  unfold updateComment.
  pose proof (request_log (UpdateComment p body n) w) as H.
  destruct (request (UpdateComment p body n) w) as [[[]|e] w1];
    [destruct (existsb _ _)|]; exact H.
Qed.

Lemma owes_loop Q w0 p marker (K : option Z -> Prog unit) pages :
  (forall found, owes Q w0 (K found)) ->
  forall page commentId,
    owes Q w0 (bind (for_await_pages p marker page pages commentId) K).
Proof.
  intros HK. induction pages as [|comments rest IH]; intros page commentId.
  - cbn [for_await_pages ret bind]. apply HK.
  - cbn [for_await_pages bind await owes]. intros w _. left.
    destruct (fst (request (ListComments p page) w)) as [[]|e]; cbn [bind].
    + apply IH.
    + cbn [owes]. eauto.
Qed.

Lemma owes_comment Q w0 ctx issueNumber c :
  (forall n,
      Q (CreateComment (issueParameters_of ctx issueNumber)
           (body_of (GITHUB_RUN_ATTEMPT w0) ctx c)) /\
      Q (UpdateComment (issueParameters_of ctx issueNumber)
           (body_of (GITHUB_RUN_ATTEMPT w0) ctx c) n)) ->
  owes Q w0 (comment ctx issueNumber c).
Proof.
  intros HQ. unfold comment. apply owes_bind_await.
  intros w attempt Hs [= <-]. rewrite (step_effect_env _ _ Hs).
  apply owes_bind_await. intros w1 pages _ _.
  apply owes_loop.
  intros [n|]; [destruct (Z.eqb n 0)|].
  - eapply owes_post; [apply (proj1 (HQ 0%Z)) | apply createComment_log].
  - eapply owes_post; [apply (proj2 (HQ n)) | apply updateComment_log].
  - eapply owes_post; [apply (proj1 (HQ 0%Z)) | apply createComment_log].
Qed.

Lemma owes_commentDiff ctx issueNumber d w0 text :
  files w0 (DiffComment.path d) = Some text ->
  owes (posts_report ctx issueNumber w0 d text) w0
    (commentDiff ctx issueNumber d).
Proof.
  intros Htext. unfold commentDiff. apply owes_bind_await.
  intros w x Hs. unfold readFile.
  rewrite (step_effect_files _ _ Hs), Htext. intros [= <-].
  apply owes_try_catch.
  - apply owes_comment. intros n.
    split; eexists; (split; [left; reflexivity|]); [left | right; exists n];
      reflexivity.
  - apply owes_bind_await. intros w1 attempt Hs1 [= <-].
    rewrite (step_effect_env _ _ Hs1).
    apply owes_comment. intros n.
    split; eexists; (split; [right; reflexivity|]); [left | right; exists n];
      reflexivity.
Qed.

(** *** Each file is read once *)

Lemma files_read_app l l' :
  files_read (l ++ l') = (files_read l ++ files_read l')%list.
Proof.
  induction l as [|[] l IH]; cbn [app files_read]; now rewrite ?IH.
Qed.

Lemma reads_left_try_catch m handler :
  reads_left m [] -> reads_left handler [] ->
  reads_left (try_catch m handler) [].
Proof.
  intros Hm Hh.
  induction m as [[a|e]|X op k IH]; cbn [reads_left try_catch] in *; auto.
  intros w. destruct (Hm w) as [l [paths [E [Hp H]]]].
  symmetry in Hp. apply app_eq_nil in Hp. destruct Hp as [Hl ->].
  exists l, []. split; [exact E|]. split; [now rewrite Hl|]. now apply IH.
Qed.

Lemma reads_left_bind_await {X} (op : Async X) (K : X -> Prog unit) :
  (forall w, exists l,
      log (snd (op w)) = (log w ++ l)%list /\ files_read l = []) ->
  (forall x, reads_left (K x) []) ->
  reads_left (bind (await op) K) [].
Proof.
  intros Hop HK. cbn [bind await reads_left]. intros w.
  destruct (Hop w) as [l [E Hl]]. exists l, [].
  split; [exact E|]. split; [now rewrite Hl|].
  destruct (fst (op w)) as [x|e]; cbn [bind reads_left]; auto.
Qed.

Lemma reads_left_post (op : Async unit) :
  (forall w, exists l,
      log (snd (op w)) = (log w ++ l)%list /\ files_read l = []) ->
  reads_left (await op) [].
Proof.
  intros Hop. cbn [await reads_left]. intros w.
  destruct (Hop w) as [l [E Hl]]. exists l, [].
  split; [exact E|]. split; [now rewrite Hl | reflexivity].
Qed.

Lemma reads_left_loop p marker (K : option Z -> Prog unit) pages :
  (forall found, reads_left (K found) []) ->
  forall page commentId,
    reads_left (bind (for_await_pages p marker page pages commentId) K) [].
Proof.
  intros HK. induction pages as [|comments rest IH]; intros page commentId.
  - cbn [for_await_pages ret bind]. apply HK.
  - cbn [for_await_pages bind await reads_left]. intros w.
    exists [ListComments p page], []. split; [apply request_log|].
    split; [reflexivity|].
    destruct (fst (request (ListComments p page) w)) as [[]|e];
      cbn [bind reads_left]; auto.
Qed.

(** [comment] reads no file. *)
Lemma reads_left_comment ctx issueNumber c :
  reads_left (comment ctx issueNumber c) [].
Proof.
  unfold comment. apply reads_left_bind_await.
  { intros w. exists []. now rewrite app_nil_r. }
  intros attempt. apply reads_left_bind_await.
  { intros w. exists []. now rewrite app_nil_r. }
  intros pages. apply reads_left_loop.
  intros [n|]; [destruct (Z.eqb n 0)|]; apply reads_left_post; intros w;
    eexists; (split; [apply createComment_log || apply updateComment_log|]);
    reflexivity.
Qed.

(** [commentDiff] reads the file of its descriptor at its first step, and
    no file after that. *)
Lemma reads_left_commentDiff ctx issueNumber d :
  reads_left (commentDiff ctx issueNumber d) [DiffComment.path d].
Proof.
  unfold commentDiff. cbn [bind await reads_left]. intros w.
  exists [ReadFile (DiffComment.path d)], [].
  split; [|split; [reflexivity|]].
  - unfold readFile. now destruct (files w (DiffComment.path d)).
  - destruct (fst (readFile (DiffComment.path d) w)) as [text|e];
      cbn [bind reads_left]; [|reflexivity].
    apply reads_left_try_catch; [apply reads_left_comment|].
    apply reads_left_bind_await.
    + intros w1. exists []. now rewrite app_nil_r.
    + intros attempt. apply reads_left_comment.
Qed.

(** However the functions are interleaved, the files read until all have
    settled are those each had to read. *)
Lemma Interleaved_reads pending w outcomes w' :
  Interleaved pending w outcomes w' ->
  forall to_read,
    Forall2 reads_left pending to_read ->
    exists l,
      log w' = (log w ++ l)%list /\
      Permutation (files_read l) (concat to_read).
Proof.
  induction 1 as [outcomes w|before X op k after w outcomes w' _ IH];
    intros to_read Hall.
  - exists []. split; [now rewrite app_nil_r|].
    assert (E : concat to_read = []).
    { revert to_read Hall.
      induction outcomes as [|r outcomes IHo]; intros to_read Hall;
        inversion Hall as [|? paths ? ? Hp Hrest]; subst; [reflexivity|].
      cbn [reads_left] in Hp. subst paths. cbn [concat app]. now apply IHo. }
    rewrite E. constructor.
  - apply Forall2_app_inv_l in Hall.
    destruct Hall as [left [right [H1 [H2 ->]]]].
    inversion H2 as [|? paths ? right' Hp H3]; subst.
    cbn [reads_left] in Hp.
    destruct (Hp w) as [l [paths' [E [-> Hk]]]].
    destruct (IH (left ++ paths' :: right')%list) as [l' [E' HP]].
    { apply Forall2_app; [exact H1 | now constructor]. }
    exists (l ++ l')%list. split; [now rewrite E', E, app_assoc|].
    rewrite files_read_app, HP, !concat_app. cbn [concat].
    rewrite <- !app_assoc. apply Permutation_app_swap_app.
Qed.

Lemma concat_paths (diffs : list DiffComment.t) :
  concat (map (fun d => [DiffComment.path d]) diffs) =
  map DiffComment.path diffs.
Proof.
  induction diffs as [|d diffs IH]; cbn [map concat app]; now rewrite ?IH.
Qed.

(** *** Each report, from its first step to its outcome *)

Section Reports.

Variable ctx : GithubActionContext.t.
Variable issueNumber : Z.
Variable w0 : World.

Lemma commentDiff_first_step d w :
  step (commentDiff ctx issueNumber d) w =
  (match files w (DiffComment.path d) with
   | Some text =>
       try_catch
         (comment ctx issueNumber
            (diff_text d
               (diff_bodyText
                  (if String.eqb text "" then "No changes found."
                   else text))))
         (attempt <- await process_env_GITHUB_RUN_ATTEMPT ;;
          comment ctx issueNumber (fallback_text attempt ctx d))
   | None => Done (Throw (FsError (DiffComment.path d)))
   end,
   after_read (DiffComment.path d) w).
Proof.
  unfold commentDiff. cbn [bind await step]. unfold readFile.
  now destruct (files w (DiffComment.path d)).
Qed.

Lemma report_state_at_first d :
  report_state ctx issueNumber w0 w0 d (commentDiff ctx issueNumber d).
Proof.
  split; [apply commentDiff_step_effect|].
  split; [apply step_effect_refl|].
  destruct (files w0 (DiffComment.path d)) as [text|] eqn:E; [|now left].
  split.
  - left. now apply owes_commentDiff.
  - intros _ _. eapply unfailing_commentDiff. exact E.
Qed.

Lemma report_state_other w d m d' m' :
  report_state ctx issueNumber w0 w d m ->
  report_state ctx issueNumber w0 w d' m' ->
  report_state ctx issueNumber w0 (snd (step m w)) d' m'.
Proof.
  intros [Hm _] [Hr [Hs Hd]].
  destruct (Respects_step_inv step_effect step_effect_refl m w Hm)
    as [_ Hstep].
  split; [exact Hr|].
  split; [eapply step_effect_trans; eassumption|].
  destruct (files w0 (DiffComment.path d')) as [text|]; [|exact Hd].
  destruct Hd as [Hpost Hgood]. split.
  - destruct Hpost as [H|[l [c [E [Hin HQ]]]]]; [now left | right].
    destruct (step_effect_logged _ _ _ _ E Hstep) as [l1 E1].
    exists (l ++ l1)%list, c. split; [exact E1|].
    split; [apply in_or_app; now left | exact HQ].
  - intros Hf Hp. eapply unfailing_later; [exact Hstep | auto].
Qed.

Lemma report_state_own w d m :
  report_state ctx issueNumber w0 w d m ->
  report_state ctx issueNumber w0 (snd (step m w)) d (fst (step m w)).
Proof.
  intros [Hm [Hs Hd]].
  destruct (Respects_step_inv step_effect step_effect_refl m w Hm)
    as [Hm' Hstep].
  destruct (step_effect_log _ _ Hs) as [l0 E0].
  split; [exact Hm'|].
  split; [eapply step_effect_trans; eassumption|].
  destruct (files w0 (DiffComment.path d)) as [text|] eqn:Efile.
  - destruct Hd as [Hpost Hgood]. split.
    + destruct Hpost as [H|[l [c [E [Hin HQ]]]]].
      * destruct m as [r|X op k]; [now left|].
        cbn [owes] in H. cbn [step].
        destruct (H w Hs) as [H'|[l [c [E [Hin HQ]]]]];
          destruct (op w) as [r w1]; cbn [fst snd] in *; [now left|].
        right. exists (l0 ++ l)%list, c.
        split; [now rewrite E, E0, app_assoc|].
        split; [apply in_or_app; now right | exact HQ].
      * right.
        destruct (step_effect_logged _ _ _ _ E Hstep) as [l1 E1].
        exists (l ++ l1)%list, c. split; [exact E1|].
        split; [apply in_or_app; now left | exact HQ].
    + intros Hf Hp. specialize (Hgood Hf Hp).
      destruct m as [r|X op k]; [exact Hgood|].
      cbn [unfailing] in Hgood. cbn [step].
      specialize (Hgood w (step_effect_refl w)
                    (step_effect_no_faults _ _ Hs Hf)
                    (step_effect_paginate_ok _ _ Hs Hp)).
      now destruct (op w).
  - destruct Hd as [->| ->]; [|now right].
    rewrite commentDiff_first_step. cbn [fst]. right.
    now rewrite (step_effect_files _ _ Hs), Efile.
Qed.

Lemma commentDiff_not_settled d r :
  Done r <> commentDiff ctx issueNumber d.
Proof. unfold commentDiff. cbn [bind await]. discriminate. Qed.

Lemma report_state_settled w calls d r :
  log w = (log w0 ++ calls)%list ->
  report_state ctx issueNumber w0 w d (Done r) ->
  report_outcome ctx issueNumber w0 calls d r.
Proof.
  intros Hlog [_ [_ Hd]]. unfold report_outcome.
  destruct (files w0 (DiffComment.path d)) as [text|].
  - destruct Hd as [Hpost Hgood]. split; [|exact Hgood].
    intros ->. destruct Hpost as [[e H]|[l [c [E [Hin HQ]]]]];
      [discriminate|].
    rewrite Hlog in E. apply app_inv_head in E. subst. now exists c.
  - destruct Hd as [H|[= ->]];
      [now apply commentDiff_not_settled in H | reflexivity].
Qed.

(** However the reports are interleaved, the outcome of each is tied to its
    own descriptor. *)
Lemma Interleaved_reports diffs outcomes w' calls :
  Interleaved (map (fun diff => commentDiff ctx issueNumber diff) diffs) w0
    outcomes w' ->
  log w' = (log w0 ++ calls)%list ->
  Forall2 (report_outcome ctx issueNumber w0 calls) diffs outcomes.
Proof.
  intros Hrun Hlog.
  pose proof (Interleaved_invariant DiffComment.t
                (report_state ctx issueNumber w0)
                report_state_own report_state_other _ _ _ _ Hrun diffs)
    as H.
  eapply Forall2_impl; [|apply H].
  - intros d r. now apply report_state_settled.
  - clear. induction diffs as [|d diffs IH]; cbn [map]; constructor;
      [apply report_state_at_first | exact IH].
Qed.

End Reports.

(** With the empty schedule the reports run in array order, each from the
    world the one before left, whatever its outcome. *)
Lemma allSettled_in_array_order ctx issueNumber diffs :
  forall w, exists results w',
    allSettled []
      (map (fun diff => commentDiff ctx issueNumber diff) diffs) w =
      (Ok results, w') /\
    Settles ctx issueNumber w diffs results w'.
Proof.
  unfold allSettled. cbn [interleave].
  induction diffs as [|d diffs IH]; intros w; cbn [map settle_all].
  - exists [], w. split; [reflexivity | constructor].
  - destruct (run (commentDiff ctx issueNumber d) w) as [[[]|e] w1] eqn:E;
      destruct (IH w1) as [results [w' [Hrun Hs]]];
      destruct (settle_all _ w1) as [results' w''];
      injection Hrun as -> ->; cbn [settled].
    + exists (fulfilled :: results), w'. split; [reflexivity|].
      eapply Settles_fulfilled; eassumption.
    + exists (rejected e :: results), w'. split; [reflexivity|].
      eapply Settles_rejected; eassumption.
Qed.

(** C5: for every list of descriptors and every order in which the event
    loop interleaves their reports, [commentDiffs] takes every report, step
    by step, to its end, whatever the others settle with, and the settled
    result at each place is that of the report of the descriptor at that
    place, fulfilled if it returned and rejected with its error if it
    threw: the report of a descriptor whose file cannot be read is rejected
    with the error of that read; a report that is fulfilled has made a
    request that posts its comment; and a report whose file can be read is
    fulfilled when no request is rejected.  The file of every descriptor is
    read, once for each descriptor that names it.  When the reports
    run in array order, each result is the outcome of [commentDiff] on its
    descriptor in the world the report before left.  [commentDiffs] throws
    exactly when one of the reports threw, and then throws the single error
    [Posting diff comment failed] whose cause is the list of the settled
    results of all descriptors; otherwise it returns. *)
Theorem commentDiffs_settles_all_then_aggregates schedule ctx issueNumber
  diffs w :
  exists outcomes results calls w',
    Interleaved (map (fun diff => commentDiff ctx issueNumber diff) diffs) w
      outcomes w' /\
    Forall2
      (fun r result =>
         result = match r with
                  | Ok _ => fulfilled
                  | Throw e => rejected e
                  end)
      outcomes results /\
    allSettled schedule
      (map (fun diff => commentDiff ctx issueNumber diff) diffs) w =
      (Ok results, w') /\
    log w' = (log w ++ calls)%list /\
    Permutation (files_read calls) (map DiffComment.path diffs) /\
    Forall2 (report_outcome ctx issueNumber w calls) diffs outcomes /\
    (schedule = [] -> Settles ctx issueNumber w diffs results w') /\
    run (commentDiffs schedule ctx issueNumber diffs) w =
      (if existsb is_rejected results then
         Throw (JsError "Posting diff comment failed" (Some results))
       else Ok tt, w') /\
    ((exists e,
         fst (run (commentDiffs schedule ctx issueNumber diffs) w) = Throw e) <->
     Exists (fun r => exists e, r = Throw e) outcomes).
Proof.
  destruct (allSettled_interleaved schedule
              (map (fun diff => commentDiff ctx issueNumber diff) diffs) w)
    as [outcomes [Hrun Hres]].
  destruct (allSettled schedule _ w) as [results w'] eqn:Hall.
  cbn [fst snd] in *. subst results.
  destruct (Interleaved_reads _ _ _ _ Hrun
              (map (fun d => [DiffComment.path d]) diffs))
    as [calls [Hlog Hreads]].
  { clear. induction diffs as [|d diffs IH]; cbn [map]; constructor;
      [apply reads_left_commentDiff | exact IH]. }
  rewrite concat_paths in Hreads.
  exists outcomes, (map settled outcomes), calls, w'.
  assert (Hc : run (commentDiffs schedule ctx issueNumber diffs) w =
               (if existsb is_rejected (map settled outcomes) then
                  Throw (JsError "Posting diff comment failed"
                           (Some (map settled outcomes)))
                else Ok tt, w')).
  { unfold commentDiffs. rewrite run_bind, run_await, Hall. unfold Js.some.
    destruct (existsb is_rejected (map settled outcomes)); reflexivity. }
  split; [exact Hrun|]. split.
  { clear. induction outcomes as [|[[]|e] outcomes IH]; cbn [map settled];
      constructor; auto. }
  split; [reflexivity|]. split; [exact Hlog|]. split; [exact Hreads|].
  split; [now apply Interleaved_reports with (w' := w')|].
  split; [|split; [exact Hc|]].
  - intros ->.
    destruct (allSettled_in_array_order ctx issueNumber diffs w)
      as [results [w1 [Hrun1 Hs]]].
    rewrite Hall in Hrun1. now injection Hrun1 as <- <-.
  - rewrite Hc. cbn [fst]. split.
    + intros [e He].
      destruct (existsb is_rejected (map settled outcomes)) eqn:E;
        [|discriminate].
      apply existsb_exists in E. destruct E as [s [Hin Hs]].
      apply in_map_iff in Hin. destruct Hin as [r [<- Hin]].
      apply Exists_exists. exists r. split; [exact Hin|].
      destruct r; [discriminate | eauto].
    + intros H. apply Exists_exists in H.
      destruct H as [r [Hin [e ->]]].
      assert (E : existsb is_rejected (map settled outcomes) = true).
      { apply existsb_exists. exists (rejected e).
        split; [|reflexivity]. apply in_map_iff.
        exists (Throw e). now split. }
      rewrite E. eauto.
Qed.

(** Three descriptors, the file of the second missing, no request rejected,
    the steps of the reports interleaved: the first and the third report
    are fulfilled, having posted, and one error carries the three settled
    results in array order. *)
Lemma commentDiffs_settles_all_then_aggregates_witness :
  let w := Samples.world [] 1 30 [] in
  let diffs := [Samples.diff "js.diff" "dist-diff-js";
                Samples.diff "missing.diff" "dist-diff-css";
                Samples.diff "empty.diff" "dist-diff-other"] in
  let r := run (commentDiffs [0; 1; 2; 0; 1; 2; 2; 0; 0; 2; 2] Samples.ctx 7
                  diffs) w in
  exists calls,
    fst r = Throw (JsError "Posting diff comment failed"
                     (Some [fulfilled; rejected (FsError "missing.diff");
                            fulfilled])) /\
    log (snd r) = calls /\
    Permutation (files_read calls) ["js.diff"; "missing.diff"; "empty.diff"] /\
    (exists c, In c calls /\
               posts_report Samples.ctx 7 w (Samples.diff "js.diff" "dist-diff-js")
                 "+const a = 1" c) /\
    (exists c, In c calls /\
               posts_report Samples.ctx 7 w
                 (Samples.diff "empty.diff" "dist-diff-other") "" c).
Proof.
  intros w diffs r.
  destruct (commentDiffs_settles_all_then_aggregates
              [0; 1; 2; 0; 1; 2; 2; 0; 0; 2; 2] Samples.ctx 7 diffs w)
    as (outcomes & results & calls & w' & _ & Hres & _ & Hlog & Hreads &
        Hall & _ & Hrun & _).
  assert (Hf : no_faults w) by reflexivity.
  pose proof (sample_paginate_ok [] 1 30 []) as Hp. fold w in Hp.
  inversion Hall as [|d1 r1 ? ? H1 Hall1]; subst.
  inversion Hall1 as [|d2 r2 ? ? H2 Hall2]; subst.
  inversion Hall2 as [|d3 r3 ? ? H3 Hall3]; subst.
  inversion Hall3; subst.
  cbn in H1, H2, H3. destruct H1 as [P1 G1], H3 as [P3 G3].
  specialize (G1 Hf Hp). specialize (G3 Hf Hp). subst r1 r2 r3.
  inversion Hres as [|? s1 ? ? E1 Hres1]; subst.
  inversion Hres1 as [|? s2 ? ? E2 Hres2]; subst.
  inversion Hres2 as [|? s3 ? ? E3 Hres3]; subst.
  inversion Hres3; subst.
  exists calls. unfold r. rewrite Hrun.
  cbn [existsb is_rejected orb fst snd].
  split; [reflexivity|]. split; [exact Hlog|]. split; [exact Hreads|].
  split; [apply P1 | apply P3]; reflexivity.
Defined.

(** Three descriptors, the file of the second missing, the steps of the
    reports interleaved so that the third posts before the first: the
    comments of those two are created, and one error carries the three
    results in array order. *)
Example commentDiffs_three_descriptors_one_fails :
  let w := Samples.world [] 1 30 [] in
  let r := run (commentDiffs [0; 1; 2; 0; 1; 2; 2; 0; 0; 2; 2] Samples.ctx 7
                  [Samples.diff "js.diff" "dist-diff-js";
                   Samples.diff "missing.diff" "dist-diff-css";
                   Samples.diff "empty.diff" "dist-diff-other"]) w in
  fst r = Throw (JsError "Posting diff comment failed"
                   (Some [fulfilled; rejected (FsError "missing.diff");
                          fulfilled])) /\
  map IssueComment.id (comments (snd r)) = [1%Z; 2%Z] /\
  map (has_marker (marker_of "dist-diff-js")) (comments (snd r)) =
    [false; true] /\
  map (has_marker (marker_of "dist-diff-other")) (comments (snd r)) =
    [true; false].
Proof. repeat split. Qed.

(** * Further properties *)

(** ** What the scripts never do to the comments *)

(** X1: whatever requests reject and however the reports are interleaved,
    [comment], [commentDiff] and [commentDiffs] never remove a comment,
    never reorder the comments and never change the issue or the identifier
    of one: the issue-and-identifier pairs after a run are those before it,
    in the same order, followed by those of the comments created. *)
Theorem scripts_never_remove_comments ctx issueNumber :
  (forall c w,
      keeps_comments w (snd (run (comment ctx issueNumber c) w))) /\
  (forall d w,
      keeps_comments w (snd (run (commentDiff ctx issueNumber d) w))) /\
  (forall schedule diffs w,
      keeps_comments w
        (snd (run (commentDiffs schedule ctx issueNumber diffs) w))).
Proof.
  apply (scripts_keep keeps_comments keeps_comments_refl keeps_comments_trans
           keeps_comments_request keeps_comments_readFile
           keeps_comments_create keeps_comments_update).
Qed.

Lemma store_ok_same w w' :
  comments w' = comments w -> next_id w' = next_id w ->
  store_ok w -> store_ok w'.
Proof. unfold store_ok. now intros -> ->. Qed.

Lemma store_ok_append w c :
  store_ok w -> IssueComment.id c = next_id w ->
  store_ok (with_comments (comments w ++ [c])%list (next_id w + 1)%Z w).
Proof.
  intros [Hnd [Hnext Hids]] Hid. unfold store_ok. simpl. split; [|split].
  - rewrite map_app. apply NoDup_app; [exact Hnd | |].
    + repeat constructor. intros [].
    + intros a Hin [<-|[]]. apply in_map_iff in Hin.
      destruct Hin as [x [Hx Hinx]]. rewrite Forall_forall in Hids.
      apply Hids in Hinx. lia.
  - lia.
  - apply Forall_app. split.
    + eapply Forall_impl; [|exact Hids]. simpl. intros; lia.
    + repeat constructor; lia.
Qed.

Lemma store_ok_set_body w n body :
  store_ok w ->
  store_ok (with_comments (map (set_body n body) (comments w)) (next_id w) w).
Proof.
  intros [Hnd [Hnext Hids]]. unfold store_ok. simpl. split; [|split].
  - rewrite map_map. erewrite map_ext; [exact Hnd|].
    intros a. unfold set_body. now destruct (Z.eqb _ _).
  - exact Hnext.
  - apply Forall_map. eapply Forall_impl; [|exact Hids].
    simpl. intros a Ha. unfold set_body. now destruct (Z.eqb _ _).
Qed.

Lemma keeps_store_ok_request c w : keeps_store_ok w (snd (request c w)).
Proof.
  destruct (request_comments c w) as [Hc Hn]. unfold keeps_store_ok.
  now apply store_ok_same.
Qed.

Lemma keeps_store_ok_readFile path w :
  keeps_store_ok w (snd (readFile path w)).
Proof.
  unfold readFile, keeps_store_ok.
  destruct (files w path); now apply store_ok_same.
Qed.

Lemma keeps_store_ok_create p body w :
  keeps_store_ok w (snd (createComment p body w)).
Proof.
  unfold createComment, keeps_store_ok.
  pose proof (keeps_store_ok_request (CreateComment p body) w) as H.
  destruct (request (CreateComment p body) w) as [[[]|e] w']; simpl in *;
    intros Hok; [|auto].
  apply store_ok_append; [auto | reflexivity].
Qed.

Lemma keeps_store_ok_update p body n w :
  keeps_store_ok w (snd (updateComment p body n w)).
Proof.
  unfold updateComment, keeps_store_ok.
  pose proof (keeps_store_ok_request (UpdateComment p body n) w) as H.
  destruct (request (UpdateComment p body n) w) as [[[]|e] w']; simpl in *;
    [destruct (existsb _ _); simpl|]; intros Hok; auto.
  apply store_ok_set_body. auto.
Qed.

(** X2: if the identifiers of the stored comments are non-zero, unique and
    below the next identifier before a run of [comment], [commentDiff] or
    [commentDiffs], they are so after it, whatever requests reject and
    however the reports are interleaved. *)
Theorem scripts_keep_store_ok ctx issueNumber :
  (forall c w,
      store_ok w -> store_ok (snd (run (comment ctx issueNumber c) w))) /\
  (forall d w,
      store_ok w -> store_ok (snd (run (commentDiff ctx issueNumber d) w))) /\
  (forall schedule diffs w,
      store_ok w ->
      store_ok (snd (run (commentDiffs schedule ctx issueNumber diffs) w))).
Proof.
  apply (scripts_keep keeps_store_ok).
  - intros w H. exact H.
  - intros w1 w2 w3 H12 H23 H. apply H23, H12, H.
  - apply keeps_store_ok_request.
  - apply keeps_store_ok_readFile.
  - apply keeps_store_ok_create.
  - apply keeps_store_ok_update.
Qed.

Lemma sample_store_ok (l : list bool) :
  store_ok (Samples.world [Samples.stored 1 Samples.marker] 2 30 l).
Proof.
  unfold store_ok. simpl. split; [|split; [lia|]].
  - repeat constructor. intros [].
  - repeat constructor; simpl; lia.
Qed.

(** One comment stored, the listing rejected, the reports of two diffs
    interleaved. *)
Lemma scripts_keep_store_ok_witness :
  let w := Samples.world [Samples.stored 1 Samples.marker] 2 30 [true] in
  store_ok w /\
  store_ok
    (snd (run (commentDiffs [1; 0; 1; 0] Samples.ctx 7
                 [Samples.diff "js.diff" "dist-diff-js";
                  Samples.diff "empty.diff" "dist-diff-css"]) w)).
Proof.
  intros w. split; [apply sample_store_ok|].
  apply (scripts_keep_store_ok Samples.ctx 7), sample_store_ok.
Defined.

(** ** When requests reject *)

Lemma request_first_ok c w rest :
  faults w = false :: rest ->
  request c w = (Ok tt, with_faults rest (with_log (log w ++ [c])%list w)).
Proof. unfold request. now intros ->. Qed.

Lemma request_first_rejected c w rest :
  faults w = true :: rest ->
  request c w =
  (Throw (RequestError c), with_faults rest (with_log (log w ++ [c])%list w)).
Proof. unfold request. now intros ->. Qed.

Lemma for_await_pages_rejected p marker pages :
  forall k page commentId w rest,
    faults w = (repeat false k ++ true :: rest)%list ->
    k < length pages ->
    run (for_await_pages p marker page pages commentId) w =
    (Throw (RequestError (ListComments p (page + k))),
     with_faults rest
       (with_log (log w ++ map (ListComments p) (seq page (S k)))%list w)).
Proof.
  induction pages as [|comments later IH];
    intros k page commentId w rest Hf Hk; [simpl in Hk; lia|].
  cbn [for_await_pages]. rewrite run_bind, run_await.
  destruct k as [|k]; simpl in Hf.
  - rewrite (request_first_rejected _ _ _ Hf). now rewrite Nat.add_0_r.
  - rewrite (request_first_ok _ _ _ Hf).
    rewrite (IH k (S page) _ _ rest); [|reflexivity | simpl in Hk; lia].
    rewrite Nat.add_succ_r. cbn [with_log with_faults log].
    cbn [seq map]. now rewrite <- app_assoc.
Qed.

(** X3: if the requests for the first [k] pages succeed and the request for
    the next page is rejected, [comment] throws the error of that request;
    the later pages are not requested, no comment is created or updated, and
    the stored comments are as before. *)
Theorem comment_page_request_rejected ctx issueNumber c k rest w :
  faults w = (repeat false k ++ true :: rest)%list ->
  k < length (pages_of issueNumber w) ->
  let p := issueParameters_of ctx issueNumber in
  run (comment ctx issueNumber c) w =
    (Throw (RequestError (ListComments p k)),
     with_faults rest (with_log (log w ++ page_requests p (S k))%list w)) /\
  comments (snd (run (comment ctx issueNumber c) w)) = comments w.
Proof.
  intros Hf Hk p.
  assert (H : run (comment ctx issueNumber c) w =
              (Throw (RequestError (ListComments p k)),
               with_faults rest
                 (with_log (log w ++ page_requests p (S k))%list w))).
  { rewrite (comment_run ctx issueNumber c w). fold p.
    cbn [IssueParams.issue_number p issueParameters_of].
    now rewrite (for_await_pages_rejected _ _ _ k 0 None w rest Hf Hk). }
  split; [exact H | now rewrite H].
Qed.

(** Two pages, the request for the second rejected. *)
Lemma comment_page_request_rejected_witness :
  let w := Samples.world
             [Samples.stored 11 "unrelated"; Samples.stored 22 Samples.marker]
             23 1 [false; true] in
  log (snd (run (comment Samples.ctx 7 (Samples.text "new")) w)) =
    [ListComments Samples.params 0; ListComments Samples.params 1] /\
  comments (snd (run (comment Samples.ctx 7 (Samples.text "new")) w)) =
    comments w.
Proof.
  intros w.
  destruct (comment_page_request_rejected Samples.ctx 7 (Samples.text "new")
              1 [] w eq_refl) as [H Hc].
  - simpl. lia.
  - split; [rewrite H; reflexivity | exact Hc].
Defined.

(** The stored comments and the next identifier are the same. *)
Lemma for_await_pages_store p marker pages :
  forall page commentId w,
    comments (snd (run (for_await_pages p marker page pages commentId) w)) =
      comments w /\
    next_id (snd (run (for_await_pages p marker page pages commentId) w)) =
      next_id w /\
    forall v,
      fst (run (for_await_pages p marker page pages commentId) w) = Ok v ->
      v = scan_pages marker pages commentId.
Proof.
  induction pages as [|page_comments later IH]; intros page commentId w.
  - simpl. repeat split. intros v H. now injection H.
  - cbn [for_await_pages]. rewrite run_bind, run_await.
    destruct (request_comments (ListComments p page) w) as [Hc Hn].
    destruct (request (ListComments p page) w) as [[[]|e] w1]; simpl in Hc, Hn.
    + destruct (IH (S page) (scan_page marker page_comments commentId) w1)
        as [Hc' [Hn' Hv]].
      rewrite Hc', Hn'. repeat split; auto.
    + simpl. repeat split; auto. intros v H. discriminate H.
Qed.

Lemma create_or_update_grows p body commentId w :
  let r := create_or_update p body commentId w in
  (forall e, fst r = Throw e ->
             comments (snd r) = comments w /\ next_id (snd r) = next_id w) /\
  exists created,
    map key (comments (snd r)) = (map key (comments w) ++ created)%list /\
    length created <= 1.
Proof.
  assert (Hc : forall w,
             let r := createComment p body w in
             (forall e, fst r = Throw e ->
                comments (snd r) = comments w /\
                next_id (snd r) = next_id w) /\
             exists created,
               map key (comments (snd r)) =
                 (map key (comments w) ++ created)%list /\
               length created <= 1).
  { intros w0. unfold createComment.
    destruct (request_comments (CreateComment p body) w0) as [Hs Hn].
    destruct (request (CreateComment p body) w0) as [[[]|e] w1];
      simpl in *; split.
    - intros e H. discriminate H.
    - rewrite Hs, map_app. eexists. split; [reflexivity | simpl; lia].
    - intros _ _. now split.
    - exists []. rewrite Hs, app_nil_r. split; [reflexivity | simpl; lia]. }
  assert (Hu : forall n w,
             let r := updateComment p body n w in
             (forall e, fst r = Throw e ->
                comments (snd r) = comments w /\
                next_id (snd r) = next_id w) /\
             exists created,
               map key (comments (snd r)) =
                 (map key (comments w) ++ created)%list /\
               length created <= 1).
  { intros n w0. unfold updateComment.
    destruct (request_comments (UpdateComment p body n) w0) as [Hs Hn].
    destruct (request (UpdateComment p body n) w0) as [[[]|e] w1];
      simpl in *; [destruct (existsb _ _); simpl|]; split;
      try (intros e' H'; first [discriminate H' | now split]);
      exists []; rewrite app_nil_r; rewrite ?Hs;
      (split; [|simpl; lia]); try reflexivity.
    rewrite map_map. apply map_ext. intros a. apply set_body_key. }
  unfold create_or_update.
  destruct commentId as [n|]; [destruct (Z.eqb n 0)|]; auto.
Qed.

Lemma comment_grows ctx issueNumber c w :
  let r := run (comment ctx issueNumber c) w in
  (forall e, fst r = Throw e ->
             comments (snd r) = comments w /\ next_id (snd r) = next_id w) /\
  exists created,
    map key (comments (snd r)) = (map key (comments w) ++ created)%list /\
    length created <= 1.
Proof.
  cbv zeta. rewrite (comment_run ctx issueNumber c w).
  destruct (for_await_pages_store (issueParameters_of ctx issueNumber)
              (marker_of (CommentText.markerText c)) 
              (pages_of (IssueParams.issue_number
                           (issueParameters_of ctx issueNumber)) w)
              0 None w) as [Hc [Hn _]].
  destruct (run (for_await_pages _ _ _ _ _) w) as [[commentId|e] w1];
    simpl in Hc, Hn.
  - destruct (create_or_update_grows
                (issueParameters_of ctx issueNumber)
                (body_of (GITHUB_RUN_ATTEMPT w) ctx c) commentId w1)
      as [Hthrow [created [Hk Hlen]]].
    split.
    + intros e He. destruct (Hthrow e He) as [A B]. split; congruence.
    + exists created. rewrite Hk, Hc. now split.
  - simpl. split; [now split|].
    exists []. rewrite Hc, app_nil_r. split; [reflexivity | simpl; lia].
Qed.

(** X4: a run of [comment] creates at most one comment, and a run that
    throws leaves the stored comments and the next identifier as they were;
    so a run of [commentDiff], which may call [comment] twice, creates at
    most one comment as well.  This holds whatever requests reject. *)
Theorem comment_posts_at_most_once ctx issueNumber :
  (forall c w e,
      fst (run (comment ctx issueNumber c) w) = Throw e ->
      comments (snd (run (comment ctx issueNumber c) w)) = comments w /\
      next_id (snd (run (comment ctx issueNumber c) w)) = next_id w) /\
  (forall c w, exists created,
      map key (comments (snd (run (comment ctx issueNumber c) w))) =
        (map key (comments w) ++ created)%list /\
      length created <= 1) /\
  (forall d w, exists created,
      map key (comments (snd (run (commentDiff ctx issueNumber d) w))) =
        (map key (comments w) ++ created)%list /\
      length created <= 1).
Proof.
  split; [|split].
  - intros c w. apply (comment_grows ctx issueNumber c w).
  - intros c w. apply (comment_grows ctx issueNumber c w).
  - intros d w. destruct (files w (DiffComment.path d)) as [text|] eqn:Hread.
    2:{ rewrite (commentDiff_read_fails _ _ _ _ Hread). simpl.
        exists []. rewrite app_nil_r. split; [reflexivity | simpl; lia]. }
    rewrite (commentDiff_read _ _ _ _ _ Hread), run_try_catch.
    set (w0 := after_read (DiffComment.path d) w).
    assert (Hw0 : comments w0 = comments w) by reflexivity.
    set (c1 := diff_text d _).
    destruct (comment_grows ctx issueNumber c1 w0) as [Hthrow Hgrow].
    destruct (run (comment ctx issueNumber c1) w0) as [[[]|e] w1];
      simpl in Hthrow, Hgrow.
    + exact Hgrow.
    + destruct (Hthrow e eq_refl) as [Hc _].
      rewrite run_bind, run_await. unfold process_env_GITHUB_RUN_ATTEMPT.
      destruct (comment_grows ctx issueNumber
                  (fallback_text (GITHUB_RUN_ATTEMPT w1) ctx d) w1)
        as [_ [created [Hk Hlen]]].
      exists created. rewrite Hk, Hc. now split.
Qed.

(** The creation of the diff comment is rejected: nothing was stored when
    the fallback starts, and one comment is stored at the end. *)
Lemma comment_posts_at_most_once_witness :
  let w := Samples.world [] 1 30 [false; true] in
  let c := Samples.text "new" in
  fst (run (comment Samples.ctx 7 c) w) =
    Throw (RequestError
             (CreateComment Samples.params
                (body_of (Some "1") Samples.ctx c))) /\
  comments (snd (run (comment Samples.ctx 7 c) w)) = comments w.
Proof.
  intros w c. split; [reflexivity|].
  destruct (comment_posts_at_most_once Samples.ctx 7) as [H _].
  destruct (H c w _ eq_refl) as [Hc _]. exact Hc.
Defined.

(** ** The effect of a run on the stored comments *)

Lemma unique_ids (cs : list IssueComment.t) x y :
  NoDup (map IssueComment.id cs) ->
  In x cs -> In y cs -> IssueComment.id x = IssueComment.id y -> x = y.
Proof.
  induction cs as [|c cs IH]; intros Hnd Hx Hy Heq; [destruct Hx|].
  apply NoDup_cons_iff in Hnd. destruct Hnd as [Hfresh Hnd].
  destruct Hx as [->|Hx], Hy as [->|Hy]; auto.
  - exfalso. apply Hfresh. rewrite Heq. now apply in_map.
  - exfalso. apply Hfresh. rewrite <- Heq. now apply in_map.
Qed.

Lemma set_body_fixed n body cs :
  (forall c, In c cs -> IssueComment.id c = n ->
             IssueComment.body c = Some body) ->
  map (set_body n body) cs = cs.
Proof.
  intros H. induction cs as [|c cs IH]; simpl; [reflexivity|].
  rewrite IH by (intros c' Hin; apply H; now right). f_equal.
  unfold set_body. destruct (Z.eqb (IssueComment.id c) n) eqn:E; [|reflexivity].
  apply Z.eqb_eq in E. specialize (H c (or_introl eq_refl) E).
  destruct c as [i k b]. simpl in *. now rewrite H.
Qed.

(** The comment a run with no rejection and a sound store ends by writing,
    when at most one comment of the issue holds the marker. *)
Lemma comment_effect ctx issueNumber c w :
  no_faults w -> store_ok w -> paginate_ok w ->
  let marker := marker_of (CommentText.markerText c) in
  let body := body_of (GITHUB_RUN_ATTEMPT w) ctx c in
  let p := issueParameters_of ctx issueNumber in
  (filter (has_marker marker) (issue_comments issueNumber w) = [] ->
   run (comment ctx issueNumber c) w =
     (Ok tt,
      with_comments (comments w ++ [composed ctx issueNumber c w])%list
        (next_id w + 1)%Z
        (with_log (log (listed p w) ++ [CreateComment p body])%list
           (listed p w)))) /\
  (forall cm,
      filter (has_marker marker) (issue_comments issueNumber w) = [cm] ->
      run (comment ctx issueNumber c) w =
        (Ok tt,
         with_comments
           (map (set_body (IssueComment.id cm) body) (comments w))
           (next_id w)
           (with_log
              (log (listed p w) ++
               [UpdateComment p body (IssueComment.id cm)])%list
              (listed p w)))).
Proof.
  intros Hw [Hnd [Hnext Hids]] Hpg marker body p.
  pose proof (comment_no_faults ctx issueNumber c w Hw) as Hrun.
  cbv zeta in Hrun. fold marker body p in Hrun.
  assert (Hcat : concat (pages_of issueNumber w) = issue_comments issueNumber w)
    by apply Hpg.
  assert (Hl : no_faults (listed p w)) by exact Hw.
  split.
  - intros F. rewrite Hrun.
    rewrite scan_pages_no_match
      by (rewrite Hcat; apply (filter_nil_forall _ _ F)).
    apply (createComment_no_faults p body (listed p w) Hl).
  - intros cm F. rewrite Hrun.
    assert (Hcm : In cm (issue_comments issueNumber w) /\
                  has_marker marker cm = true).
    { apply filter_In. rewrite F. now left. }
    destruct Hcm as [Hin Hm].
    assert (Hstore : In cm (comments w)).
    { unfold issue_comments in Hin. now apply filter_In in Hin. }
    assert (Hscan : scan_pages marker (pages_of issueNumber w) None =
                    Some (IssueComment.id cm)).
    { rewrite <- Hcat in Hin.
      destruct (scan_pages_match marker _ cm None Hin Hm) as [n Hn].
      rewrite Hn. apply scan_pages_some in Hn.
      destruct Hn as [Hn | [c' [Hin' [Hm' Hid']]]]; [discriminate|].
      rewrite Hcat in Hin'.
      assert (Hf : In c' (filter (has_marker marker)
                            (issue_comments issueNumber w)))
        by (apply filter_In; now split).
      rewrite F in Hf. destruct Hf as [<-|[]]. now rewrite Hid'. }
    rewrite Hscan. unfold create_or_update.
    assert (Hnz : Z.eqb (IssueComment.id cm) 0 = false).
    { apply Z.eqb_neq. rewrite Forall_forall in Hids.
      apply Hids in Hstore. lia. }
    rewrite Hnz.
    apply (updateComment_no_faults p body _ (listed p w) Hl).
    exists cm. now split.
Qed.

(** X5: posting the same text a second time changes no stored comment.  On
    an issue that holds at most one comment with the marker (sound
    identifiers, a listing that pages every comment, no request rejected),
    two runs of [comment] with the same text both succeed and leave the
    comments the first run left. *)
Theorem comment_same_text_twice ctx issueNumber c w :
  no_faults w -> store_ok w -> paginate_ok w ->
  length (filter (has_marker (marker_of (CommentText.markerText c)))
            (issue_comments issueNumber w)) <= 1 ->
  exists w1 w2,
    run (comment ctx issueNumber c) w = (Ok tt, w1) /\
    run (comment ctx issueNumber c) w1 = (Ok tt, w2) /\
    comments w2 = comments w1 /\
    next_id w2 = next_id w1.
Proof.
  intros Hw Hok Hpg Hone.
  destruct (comment_upserts ctx issueNumber c w Hw Hok Hpg Hone)
    as [w1 [Hrun1 [Hw1 [Hok1 [cm [Hf Hbody]]]]]].
  pose proof (comment_surroundings ctx issueNumber c w) as Hs.
  rewrite Hrun1 in Hs. simpl in Hs. destruct Hs as [_ [Henv [Hpage _]]].
  assert (Hpg1 : paginate_ok w1) by (intros l; rewrite Hpage; apply Hpg).
  destruct (comment_effect ctx issueNumber c w1 Hw1 Hok1 Hpg1) as [_ Hupd].
  specialize (Hupd cm Hf). rewrite Henv in Hupd.
  exists w1. eexists. split; [exact Hrun1|]. split; [exact Hupd|].
  simpl. split; [|reflexivity].
  apply set_body_fixed. intros x Hx Hid.
  assert (Hcm : In cm (comments w1)).
  { assert (H : In cm (filter (has_marker (marker_of (CommentText.markerText c)))
                         (issue_comments issueNumber w1)))
      by (rewrite Hf; now left).
    apply filter_In in H. destruct H as [H _].
    unfold issue_comments in H. now apply filter_In in H. }
  destruct Hok1 as [Hnd _].
  rewrite (unique_ids _ x cm Hnd Hx Hcm Hid). exact Hbody.
Qed.

Lemma comment_same_text_twice_witness :
  let w := Samples.world [Samples.stored 4 "unrelated"] 5 30 [] in
  exists w1 w2,
    run (comment Samples.ctx 7 (Samples.text "new")) w = (Ok tt, w1) /\
    run (comment Samples.ctx 7 (Samples.text "new")) w1 = (Ok tt, w2) /\
    comments w2 = comments w1 /\
    next_id w2 = next_id w1.
Proof.
  intros w.
  apply (comment_same_text_twice Samples.ctx 7 (Samples.text "new") w
           eq_refl).
  - unfold store_ok. simpl. split; [|split; [lia|]].
    + repeat constructor. intros [].
    + repeat constructor; simpl; lia.
  - apply sample_paginate_ok.
  - simpl. lia.
Defined.

(** X6: what a successful run writes.  With no request rejected, sound
    identifiers and a listing that pages every comment: when no comment of
    the issue holds the marker, [comment] appends one comment to the store,
    of that issue, with the next identifier and the composed body, and
    changes no other; when exactly one holds it, [comment] gives that
    comment the composed body and changes nothing else. *)
Theorem comment_creates_or_rewrites_one ctx issueNumber c w :
  no_faults w -> store_ok w -> paginate_ok w ->
  let marker := marker_of (CommentText.markerText c) in
  let body := body_of (GITHUB_RUN_ATTEMPT w) ctx c in
  let w' := snd (run (comment ctx issueNumber c) w) in
  (filter (has_marker marker) (issue_comments issueNumber w) = [] ->
   fst (run (comment ctx issueNumber c) w) = Ok tt /\
   comments w' =
     (comments w ++
      [{| IssueComment.issue := issueNumber;
          IssueComment.id := next_id w;
          IssueComment.body := Some body |}])%list /\
   next_id w' = (next_id w + 1)%Z) /\
  (forall pre cm post,
      comments w = (pre ++ cm :: post)%list ->
      filter (has_marker marker) (issue_comments issueNumber w) = [cm] ->
      fst (run (comment ctx issueNumber c) w) = Ok tt /\
      comments w' =
        (pre ++
         {| IssueComment.issue := IssueComment.issue cm;
            IssueComment.id := IssueComment.id cm;
            IssueComment.body := Some body |} :: post)%list /\
      next_id w' = next_id w).
Proof.
  intros Hw Hok Hpg marker body w'.
  destruct (comment_effect ctx issueNumber c w Hw Hok Hpg) as [Hnew Hupd].
  fold marker body in Hnew, Hupd. split.
  - intros F. unfold w'. rewrite (Hnew F). now repeat split.
  - intros pre cm post Hsplit F. unfold w'. rewrite (Hupd cm F).
    simpl. repeat split. rewrite Hsplit.
    destruct Hok as [Hnd _]. rewrite Hsplit in Hnd.
    rewrite map_app in Hnd. simpl in Hnd.
    apply NoDup_remove_2 in Hnd.
    rewrite map_app. simpl. unfold set_body at 2. rewrite Z.eqb_refl.
    assert (Hother : forall l,
               (forall x, In x l -> In (IssueComment.id x)
                                       (map IssueComment.id l)) ->
               ~ In (IssueComment.id cm) (map IssueComment.id l) ->
               map (set_body (IssueComment.id cm) body) l = l).
    { intros l _ Hnot. induction l as [|x l IH]; simpl; [reflexivity|].
      rewrite set_body_other by (intros E; apply Hnot; left; exact E).
      f_equal. apply IH. intros Hin. apply Hnot. now right. }
    rewrite !Hother; try reflexivity; try (intros x Hx; now apply in_map).
    + intros Hin. apply Hnd. apply in_or_app. now right.
    + intros Hin. apply Hnd. apply in_or_app. now left.
Qed.

Lemma comment_creates_or_rewrites_one_witness :
  let w := Samples.world [Samples.stored 4 "unrelated"] 5 30 [] in
  comments (snd (run (comment Samples.ctx 7 (Samples.text "new")) w)) =
    [Samples.stored 4 "unrelated";
     Samples.stored 5 (body_of (Some "1") Samples.ctx (Samples.text "new"))].
Proof.
  intros w.
  assert (Hok : store_ok w).
  { unfold store_ok. simpl. split; [|split; [lia|]].
    - repeat constructor. intros [].
    - repeat constructor; simpl; lia. }
  destruct (comment_creates_or_rewrites_one Samples.ctx 7 (Samples.text "new")
              w eq_refl Hok (sample_paginate_ok _ _ _ _)) as [H _].
  destruct (H eq_refl) as [_ [Hc _]]. rewrite Hc. reflexivity.
Defined.

Lemma filter_set_body_other_issue j n body cs :
  (forall x, In x cs -> IssueComment.id x = n ->
             IssueComment.issue x <> j) ->
  filter (fun c => Z.eqb (IssueComment.issue c) j)
    (map (set_body n body) cs) =
  filter (fun c => Z.eqb (IssueComment.issue c) j) cs.
Proof.
  intros H. induction cs as [|c cs IH]; simpl; [reflexivity|].
  rewrite set_body_issue.
  rewrite IH by (intros x Hx; apply H; now right).
  destruct (Z.eqb (IssueComment.issue c) j) eqn:E; [|reflexivity].
  f_equal. apply set_body_other. intros Hid.
  apply (H c (or_introl eq_refl) Hid). now apply Z.eqb_eq.
Qed.

(** X7: [comment] run for one issue leaves the comments of every other
    issue as they are, whatever requests reject, provided identifiers are
    unique and the listing pages the comments of the issue. *)
Theorem comment_leaves_other_issues ctx issueNumber c w j :
  store_ok w -> paginate_ok w -> j <> issueNumber ->
  issue_comments j (snd (run (comment ctx issueNumber c) w)) =
  issue_comments j w.
Proof.
  intros [Hnd _] Hpg Hj.
  rewrite (comment_run ctx issueNumber c w).
  set (p := issueParameters_of ctx issueNumber).
  set (marker := marker_of (CommentText.markerText c)).
  set (body := body_of (GITHUB_RUN_ATTEMPT w) ctx c).
  cbn [IssueParams.issue_number p issueParameters_of].
  destruct (for_await_pages_store p marker (pages_of issueNumber w) 0 None w)
    as [Hc [_ Hv]].
  destruct (run (for_await_pages _ _ _ _ _) w) as [[commentId|e] w1];
    simpl in Hc, Hv; [|unfold issue_comments; simpl; now rewrite Hc].
  specialize (Hv commentId eq_refl).
  assert (Hcreate : issue_comments j (snd (createComment p body w1)) =
                    issue_comments j w).
  { unfold createComment, issue_comments.
    destruct (request_comments (CreateComment p body) w1) as [Hr _].
    destruct (request (CreateComment p body) w1) as [[[]|e] w2];
      simpl in *; rewrite Hr, Hc; [|reflexivity].
    rewrite filter_app. simpl.
    assert (E : Z.eqb issueNumber j = false) by (apply Z.eqb_neq; congruence).
    rewrite E. apply app_nil_r. }
  unfold create_or_update.
  destruct commentId as [n|]; [|exact Hcreate].
  destruct (Z.eqb n 0); [exact Hcreate|].
  unfold updateComment, issue_comments.
  destruct (request_comments (UpdateComment p body n) w1) as [Hr _].
  destruct (request (UpdateComment p body n) w1) as [[[]|e] w2];
    simpl in *; [destruct (existsb _ _); simpl|]; rewrite ?Hr, ?Hc;
    try reflexivity.
  apply filter_set_body_other_issue. intros x Hx Hid.
  symmetry in Hv. apply scan_pages_some in Hv.
  destruct Hv as [Hv | [cm [Hin [_ Hcm]]]]; [discriminate|].
  unfold pages_of in Hin. rewrite Hpg in Hin.
  unfold issue_comments in Hin. apply filter_In in Hin.
  destruct Hin as [Hin Hissue]. apply Z.eqb_eq in Hissue.
  assert (x = cm) by (apply (unique_ids (comments w)); auto; congruence).
  subst x. congruence.
Qed.

(** A comment of issue 8 that holds the marker too stays as it is. *)
Lemma comment_leaves_other_issues_witness :
  let other := {| IssueComment.issue := 8; IssueComment.id := 3;
                  IssueComment.body := Some Samples.marker |} in
  let w := Samples.world [other; Samples.stored 4 Samples.marker] 5 30 [] in
  issue_comments 8 (snd (run (comment Samples.ctx 7 (Samples.text "new")) w))
  = [other].
Proof.
  intros other w.
  rewrite (comment_leaves_other_issues Samples.ctx 7 (Samples.text "new") w 8).
  - reflexivity.
  - unfold store_ok. simpl. split; [|split; [lia|]].
    + repeat constructor; simpl; intuition discriminate.
    + repeat constructor; simpl; lia.
  - apply sample_paginate_ok.
  - discriminate.
Defined.

Lemma find_app_none {A} (f : A -> bool) (l l' : list A) :
  (forall x, In x l -> f x = false) ->
  List.find f (l ++ l') = List.find f l'.
Proof.
  intros H. induction l as [|x l IH]; simpl; [reflexivity|].
  rewrite (H x (or_introl eq_refl)). apply IH. intros y Hy. apply H. now right.
Qed.

Lemma find_app_some {A} (f : A -> bool) (l l' : list A) x :
  List.find f l = Some x -> List.find f (l ++ l') = Some x.
Proof.
  induction l as [|y l IH]; simpl; [discriminate|].
  destruct (f y); auto.
Qed.

Lemma find_none_forall {A} (f : A -> bool) (l : list A) :
  (forall x, In x l -> f x = false) -> List.find f l = None.
Proof.
  intros H. destruct (List.find f l) eqn:E; [|reflexivity].
  apply find_some in E. destruct E as [Hin Hf]. rewrite H in Hf; auto.
  discriminate.
Qed.

(** X8: when the comments that hold the marker are all on one page of the
    listing, the identifier [comment] ends its loop with is that of the
    first of them in listing order, and with no request rejected that
    comment is the one updated (its identifier not being 0). *)
Theorem comment_one_page_first_match ctx issueNumber c w before page after :
  no_faults w ->
  pages_of issueNumber w = (before ++ page :: after)%list ->
  (forall cm, In cm (concat before) ->
              has_marker (marker_of (CommentText.markerText c)) cm = false) ->
  (forall cm, In cm (concat after) ->
              has_marker (marker_of (CommentText.markerText c)) cm = false) ->
  let marker := marker_of (CommentText.markerText c) in
  let pages := pages_of issueNumber w in
  scan_pages marker pages None = first_match marker pages /\
  forall cm,
    List.find (has_marker marker) (concat pages) = Some cm ->
    IssueComment.id cm <> 0%Z ->
    last_call (snd (run (comment ctx issueNumber c) w)) =
      Some (UpdateComment (issueParameters_of ctx issueNumber)
              (body_of (GITHUB_RUN_ATTEMPT w) ctx c) (IssueComment.id cm)).
Proof.
  intros Hw Hpages Hbefore Hafter marker pages.
  assert (Hscan : scan_pages marker pages None = first_match marker pages).
  { unfold pages, first_match. rewrite Hpages.
    unfold scan_pages. rewrite fold_left_app. simpl.
    fold (scan_pages marker before None).
    rewrite (scan_pages_no_match marker before None Hbefore).
    fold (scan_pages marker after (scan_page marker page None)).
    rewrite (scan_pages_no_match marker after _ Hafter).
    rewrite concat_app. simpl.
    rewrite (find_app_none _ _ _ Hbefore).
    unfold scan_page, Js.find.
    destruct (List.find (has_marker marker) page) as [cm|] eqn:F.
    - now rewrite (find_app_some _ _ _ _ F).
    - rewrite find_app_none by (intros x Hx; now apply (find_none _ _ F)).
      now rewrite (find_none_forall _ _ Hafter). }
  split; [exact Hscan|].
  intros cm Hfind Hid.
  rewrite (comment_last_call_no_faults ctx issueNumber c w Hw).
  fold marker pages. rewrite <- scan_pages_last_page_match, Hscan.
  unfold first_match. rewrite Hfind. simpl. unfold create_or_update_call.
  apply Z.eqb_neq in Hid. now rewrite Hid.
Qed.

(** Two comments with the marker on the one page of the listing. *)
Lemma comment_one_page_first_match_witness :
  let w := Samples.world
             [Samples.stored 11 Samples.marker; Samples.stored 22 Samples.marker]
             23 30 [] in
  last_call (snd (run (comment Samples.ctx 7 (Samples.text "new")) w)) =
    Some (UpdateComment Samples.params
            (body_of (Some "1") Samples.ctx (Samples.text "new")) 11).
Proof.
  intros w.
  destruct (comment_one_page_first_match Samples.ctx 7 (Samples.text "new") w
              [] [Samples.stored 11 Samples.marker;
                  Samples.stored 22 Samples.marker] []
              eq_refl eq_refl) as [_ H].
  - intros cm [].
  - intros cm [].
  - apply (H (Samples.stored 11 Samples.marker) eq_refl). discriminate.
Defined.

(** ** commentDiff and commentDiffs *)

(** X9: with a readable file, no request rejected, sound identifiers, a
    listing that pages every comment and at most one comment of the issue
    holding the marker, [commentDiff] succeeds at its first attempt and
    leaves exactly one comment of the issue with the marker; its body is
    the composed body and holds the fenced diff (the placeholder for an
    empty file). *)
Theorem commentDiff_posts_once ctx issueNumber d w text :
  files w (DiffComment.path d) = Some text ->
  no_faults w -> store_ok w -> paginate_ok w ->
  let marker := marker_of (DiffComment.markerText d) in
  length (filter (has_marker marker) (issue_comments issueNumber w)) <= 1 ->
  let fenced :=
    diff_bodyText (if String.eqb text "" then "No changes found." else text) in
  exists w' cm,
    run (commentDiff ctx issueNumber d) w = (Ok tt, w') /\
    filter (has_marker marker) (issue_comments issueNumber w') = [cm] /\
    IssueComment.body cm =
      Some (body_of (GITHUB_RUN_ATTEMPT w) ctx (diff_text d fenced)) /\
    Js.includes (body_of (GITHUB_RUN_ATTEMPT w) ctx (diff_text d fenced))
      fenced = true.
Proof.
  intros Hread Hw Hok Hpg marker Hone fenced.
  destruct (comment_upserts ctx issueNumber (diff_text d fenced)
              (after_read (DiffComment.path d) w) Hw Hok Hpg Hone)
    as [w' [Hrun [_ [_ [cm [Hf Hbody]]]]]].
  exists w', cm.
  rewrite (commentDiff_read _ _ _ _ _ Hread), run_try_catch.
  fold fenced. rewrite Hrun. repeat split; auto.
  apply (body_of_bodyText (GITHUB_RUN_ATTEMPT w) ctx (diff_text d fenced)).
Qed.

Lemma commentDiff_posts_once_witness :
  let w := Samples.world [Samples.stored 4 "unrelated"] 5 30 [] in
  let d := Samples.diff "js.diff" "dist-diff-js" in
  exists w' cm,
    run (commentDiff Samples.ctx 7 d) w = (Ok tt, w') /\
    filter (has_marker (marker_of "dist-diff-js")) (issue_comments 7 w') =
      [cm] /\
    IssueComment.body cm =
      Some (body_of (Some "1") Samples.ctx
              (diff_text d (diff_bodyText "+const a = 1"))) /\
    Js.includes
      (body_of (Some "1") Samples.ctx
         (diff_text d (diff_bodyText "+const a = 1")))
      (diff_bodyText "+const a = 1") = true.
Proof.
  intros w d.
  apply (commentDiff_posts_once Samples.ctx 7 d w "+const a = 1"
           eq_refl eq_refl).
  - unfold store_ok. simpl. split; [|split; [lia|]].
    + repeat constructor. intros [].
    + repeat constructor; simpl; lia.
  - apply sample_paginate_ok.
  - simpl. lia.
Defined.

Section Isolation.

Variable ctx : GithubActionContext.t.
Variable issueNumber : Z.

Lemma unread_state_later w w' d m :
  same_surroundings w w' -> unread_state ctx issueNumber w d m -> unread_state ctx issueNumber w' d m.
Proof.
  intros [Hfiles _] [Hr H]. split; [exact Hr|].
  rewrite Hfiles. exact H.
Qed.

Lemma unread_state_step w d m :
  unread_state ctx issueNumber w d m ->
  unread_state ctx issueNumber (snd (step m w)) d (fst (step m w)) /\
  same_surroundings w (snd (step m w)).
Proof.
  intros [Hr H].
  destruct (Respects_step_inv same_surroundings same_surroundings_refl
              m w Hr) as [Hr' Hs].
  split; [|exact Hs]. split; [exact Hr'|].
  destruct Hs as [Hfiles _]. rewrite Hfiles. intros Hnone.
  destruct (H Hnone) as [->| ->]; right.
  - unfold commentDiff. simpl. unfold readFile. now rewrite Hnone.
  - reflexivity.
Qed.

Lemma unread_state_step_nth diffs pending :
  forall i w,
    Forall2 (unread_state ctx issueNumber w) diffs pending ->
    Forall2 (unread_state ctx issueNumber (snd (step_nth i pending w))) diffs
      (fst (step_nth i pending w)).
Proof.
  revert diffs. induction pending as [|m pending IH]; intros diffs i w H.
  - inversion H; subst. constructor.
  - inversion H as [|d ? diffs' ? Hd Hrest]; subst. destruct i as [|i]; simpl.
    + destruct (unread_state_step w d m Hd) as [Hd' Hs].
      destruct (step m w) as [m' w']. simpl in *.
      constructor; [exact Hd'|].
      eapply Forall2_impl; [|exact Hrest].
      intros d' m'' H'. eapply unread_state_later; eassumption.
    + assert (Hall : Forall (Respects same_surroundings) pending).
      { clear -Hrest. induction Hrest as [|? ? ? ? [Hx _] _ IH];
          constructor; auto. }
      destruct (step_nth_respects same_surroundings same_surroundings_refl
                  pending i w Hall) as [_ Hs].
      specialize (IH diffs' i w Hrest).
      destruct (step_nth i pending w) as [pending' w']. simpl in *.
      constructor; [eapply unread_state_later; eassumption | exact IH].
Qed.

Lemma unread_state_interleave schedule :
  forall diffs pending w,
    Forall2 (unread_state ctx issueNumber w) diffs pending ->
    Forall2 (unread_state ctx issueNumber (snd (interleave schedule pending w))) diffs
      (fst (interleave schedule pending w)).
Proof.
  induction schedule as [|i later IH]; intros diffs pending w H; simpl.
  - exact H.
  - pose proof (unread_state_step_nth diffs pending i w H) as H'.
    destruct (step_nth i pending w) as [pending' w']. now apply IH.
Qed.

Lemma unread_state_settle :
  forall pending diffs w,
    Forall2 (unread_state ctx issueNumber w) diffs pending ->
    Forall2
      (fun d r => files w (DiffComment.path d) = None ->
                  r = rejected (FsError (DiffComment.path d)))
      diffs (fst (settle_all pending w)).
Proof.
  induction pending as [|m pending IH]; intros diffs w H;
    inversion H as [|d ? diffs' ? Hd Hrest]; subst; simpl; [constructor|].
  destruct Hd as [Hr Hd].
  pose proof (Respects_run same_surroundings same_surroundings_refl
                same_surroundings_trans m Hr w) as Hs.
  assert (Hm : files w (DiffComment.path d) = None ->
               fst (run m w) = Throw (FsError (DiffComment.path d))).
  { intros Hnone. destruct (Hd Hnone) as [->| ->]; [|reflexivity].
    now rewrite (commentDiff_read_fails _ _ _ _ Hnone). }
  destruct (run m w) as [r w1]. simpl in Hs, Hm.
  assert (Hrest1 : Forall2 (unread_state ctx issueNumber w1) diffs' pending).
  { eapply Forall2_impl; [|exact Hrest].
    intros d' m' H'. eapply unread_state_later; eassumption. }
  specialize (IH diffs' w1 Hrest1).
  destruct (settle_all pending w1) as [results w2]. simpl in *.
  constructor.
  - intros Hnone. now rewrite (Hm Hnone).
  - eapply Forall2_impl; [|exact IH]. simpl.
    intros d' r' H' Hnone. apply H'.
    destruct Hs as [Hfiles _]. now rewrite Hfiles.
Qed.

Lemma unread_state_at_first w diffs :
  Forall2 (unread_state ctx issueNumber w) diffs
    (map (fun diff => commentDiff ctx issueNumber diff) diffs).
Proof.
  induction diffs as [|d diffs IH]; simpl; constructor; [|exact IH].
  split; [apply commentDiff_respects | now left].
Qed.

Lemma allSettled_unread schedule diffs w :
  exists results w',
    allSettled schedule
      (map (fun diff => commentDiff ctx issueNumber diff) diffs) w =
      (Ok results, w') /\
    Forall2
      (fun d r => files w (DiffComment.path d) = None ->
                  r = rejected (FsError (DiffComment.path d)))
      diffs results.
Proof.
  unfold allSettled.
  pose proof (unread_state_interleave schedule diffs _ w
                (unread_state_at_first w diffs)) as H.
  assert (Hall : Forall (Respects same_surroundings)
                   (map (fun diff => commentDiff ctx issueNumber diff) diffs)).
  { apply Forall_forall. intros m Hin. apply in_map_iff in Hin.
    destruct Hin as [d [<- _]]. apply commentDiff_respects. }
  destruct (interleave_respects same_surroundings same_surroundings_refl
              same_surroundings_trans schedule _ w Hall) as [_ [Hfiles _]].
  destruct (interleave schedule _ w) as [pending w1]. simpl in H, Hfiles.
  pose proof (unread_state_settle pending diffs w1 H) as Hs.
  destruct (settle_all pending w1) as [results w2]. simpl in *.
  exists results, w2. split; [reflexivity|].
  eapply Forall2_impl; [|exact Hs]. simpl.
  intros d r Hr Hnone. apply Hr. now rewrite Hfiles.
Qed.

End Isolation.

(** X10: in [commentDiffs], a descriptor whose file cannot be read gets the
    settled result [rejected] with the error of that read, at its own place
    in the results, whatever the other reports do and however the event
    loop interleaves them; and [commentDiffs] then throws its aggregate
    error. *)
Theorem commentDiffs_unreadable_file_rejected schedule ctx issueNumber diffs w :
  exists results w',
    allSettled schedule
      (map (fun diff => commentDiff ctx issueNumber diff) diffs) w =
      (Ok results, w') /\
    Forall2
      (fun d r => files w (DiffComment.path d) = None ->
                  r = rejected (FsError (DiffComment.path d)))
      diffs results /\
    ((exists d, In d diffs /\ files w (DiffComment.path d) = None) ->
     run (commentDiffs schedule ctx issueNumber diffs) w =
       (Throw (JsError "Posting diff comment failed" (Some results)), w')).
Proof.
  destruct (allSettled_unread ctx issueNumber schedule diffs w)
    as [results [w' [Hrun Hall]]].
  exists results, w'. split; [exact Hrun|]. split; [exact Hall|].
  intros [d [Hin Hnone]].
  unfold commentDiffs. rewrite run_bind, run_await, Hrun.
  assert (E : Js.some is_rejected results = true).
  { unfold Js.some. apply existsb_exists.
    clear Hrun. induction Hall as [|d' r ds rs Hd _ IH]; [destruct Hin|].
    destruct Hin as [->|Hin].
    - exists r. split; [now left|]. now rewrite (Hd Hnone).
    - destruct (IH Hin) as [x [Hx Hrej]]. exists x. split; [now right|exact Hrej]. }
  rewrite E. reflexivity.
Qed.

(** The second of three files is missing; the reports are interleaved. *)
Lemma commentDiffs_unreadable_file_rejected_witness :
  let w := Samples.world [] 1 30 [] in
  let diffs := [Samples.diff "js.diff" "dist-diff-js";
                Samples.diff "missing.diff" "dist-diff-css";
                Samples.diff "empty.diff" "dist-diff-other"] in
  exists results,
    fst (run (commentDiffs [2; 0; 2; 1; 0] Samples.ctx 7 diffs) w) =
      Throw (JsError "Posting diff comment failed" (Some results)) /\
    nth_error results 1 = Some (rejected (FsError "missing.diff")).
Proof.
  intros w diffs.
  destruct (commentDiffs_unreadable_file_rejected [2; 0; 2; 1; 0]
              Samples.ctx 7 diffs w) as [results [w' [_ [Hall Hthrow]]]].
  exists results. split.
  - rewrite Hthrow; [reflexivity|].
    exists (Samples.diff "missing.diff" "dist-diff-css").
    split; [right; now left | reflexivity].
  - inversion Hall as [|? ? ? ? _ Hrest]; subst.
    inversion Hrest as [|? ? ? ? Hd _]; subst.
    simpl. now rewrite (Hd eq_refl).
Defined.

(** X11: [commentDiffs] on an empty list makes no request, changes nothing
    and returns normally, whatever the schedule. *)
Theorem commentDiffs_nothing_to_post schedule ctx issueNumber w :
  run (commentDiffs schedule ctx issueNumber []) w = (Ok tt, w).
Proof.
  unfold commentDiffs. rewrite run_bind, run_await.
  assert (H : forall w0, interleave schedule [] w0 = ([], w0)).
  { induction schedule as [|i later IH]; intros w0; simpl; auto. }
  unfold allSettled. simpl. rewrite H. reflexivity.
Qed.

(** ** renderTable *)

Lemma count_char_app c (a b : string) :
  Js.count_char c (a ++ b) = Js.count_char c a + Js.count_char c b.
Proof.
  induction a as [|x a IH]; simpl; [reflexivity|]. rewrite IH. lia.
Qed.

Lemma join_cons (sep x y : string) (l : list string) :
  Js.join sep (x :: y :: l) = x ++ sep ++ Js.join sep (y :: l).
Proof. reflexivity. Qed.

Lemma join_cells_one_line (cells : list string) :
  Forall one_line cells -> one_line (Js.join " | " cells).
Proof.
  unfold one_line. induction 1 as [|cell cells Hc _ IH].
  - reflexivity.
  - destruct cells as [|next cells]; [exact Hc|].
    rewrite join_cons, !count_char_app, Hc, IH. reflexivity.
Qed.

Lemma table_line_one_line (cells : list string) :
  Forall one_line cells -> one_line ("| " ++ Js.join " | " cells ++ " |").
Proof.
  intros H. unfold one_line.
  rewrite !count_char_app, (join_cells_one_line cells H). reflexivity.
Qed.

Lemma join_lines_count (lines : list string) :
  Forall one_line lines ->
  Js.count_char (ascii_of_nat 10) (Js.join Js.nl lines) = pred (length lines).
Proof.
  unfold one_line. induction 1 as [|line lines Hl Hrest IH].
  - reflexivity.
  - destruct lines as [|next lines]; [exact Hl|].
    rewrite join_cons, !count_char_app, Hl, IH. reflexivity.
Qed.

Lemma repeat_one_line n : Forall one_line (repeat "---" n).
Proof. induction n; simpl; constructor; auto. reflexivity. Qed.

(** X12: a table [renderTable] returns has one line for the headers, one for
    the divider and one for each row, each ended by a line feed, when no
    cell holds a line feed; with no row at all it is the two lines of the
    headers and the divider, and [renderTable] does not throw. *)
Theorem renderTable_line_count headers rows :
  Forall one_line headers ->
  Forall (Forall one_line) rows ->
  (forall out,
      renderTable headers rows = Ok out ->
      Js.count_char (ascii_of_nat 10) out = 2 + length rows) /\
  exists out, renderTable headers [] = Ok out /\
              Js.count_char (ascii_of_nat 10) out = 2.
Proof.
  intros Hh Hr.
  assert (Hgen : forall rs out,
             Forall (Forall one_line) rs ->
             renderTable headers rs = Ok out ->
             Js.count_char (ascii_of_nat 10) out = 2 + length rs).
  { intros rs out Hrs. unfold renderTable. cbv zeta.
    set (table := Js.join Js.nl _ ++ Js.nl).
    destruct (negb _); [discriminate|]. intros H.
    assert (Hout : out = table) by congruence.
    rewrite Hout. unfold table.
    rewrite count_char_app, join_lines_count.
    - simpl. rewrite length_map. lia.
    - constructor; [now apply table_line_one_line|].
      constructor; [apply table_line_one_line, repeat_one_line|].
      apply Forall_map. eapply Forall_impl; [|exact Hrs].
      intros row Hrow. now apply table_line_one_line. }
  split; [intros out; now apply Hgen|].
  eexists. split; [reflexivity|]. apply (Hgen [] _ (Forall_nil _) eq_refl).
Qed.

Lemma renderTable_line_count_witness :
  exists out,
    renderTable ["File"; "Size"] [["a.js"; "1 KiB"]; ["b.css"; "2 KiB"]; ["c.mjs"; "3 KiB"]]
      = Ok out /\
    Js.count_char (ascii_of_nat 10) out = 5.
Proof.
  eexists. split; [reflexivity|].
  eapply (renderTable_line_count ["File"; "Size"]
            [["a.js"; "1 KiB"]; ["b.css"; "2 KiB"]; ["c.mjs"; "3 KiB"]]).
  - repeat constructor.
  - repeat constructor.
  - reflexivity.
Defined.

(** ** The two versions of the script *)

Lemma body_of_legacy_marker env ctx c :
  exists rest,
    body_of env ctx c =
    Legacy.marker_of (CommentText.markerText c) ++ rest.
Proof.
  exists (Js.join Js.nl
            [ "## " ++ CommentText.titleText c;
              CommentText.bodyText c;
              Js.nl ++ "---";
              renderCommentFooter env (GithubActionContext.context ctx)
                (GithubActionContext.commit ctx) ]).
  unfold body_of, Legacy.marker_of, marker_of.
  rewrite (join_cons Js.nl _ _ _). now rewrite !append_assoc.
Qed.

(** X13: the two versions of the script recognise each other's comments.
    A body composed by today's [comment] holds the marker token the earlier
    [comment] looks for (the token followed by a line feed), and a body
    composed by the earlier [comment] holds the token today's [comment]
    looks for, for the same marker text. *)
Theorem marker_recognised_across_versions :
  (forall env ctx c issue id,
      has_marker (Legacy.marker_of (CommentText.markerText c))
        {| IssueComment.issue := issue; IssueComment.id := id;
           IssueComment.body := Some (body_of env ctx c) |} = true) /\
  (forall markerText bodyText issue id,
      has_marker (marker_of markerText)
        {| IssueComment.issue := issue; IssueComment.id := id;
           IssueComment.body :=
             Some (Legacy.marker_of markerText ++ bodyText) |} = true).
Proof.
  split.
  - intros env ctx c issue id. unfold has_marker. cbn [IssueComment.body].
    destruct (body_of_legacy_marker env ctx c) as [rest ->].
    apply includes_prefix, prefix_append.
  - intros markerText bodyText issue id. unfold has_marker.
    cbn [IssueComment.body]. apply includes_prefix.
    apply prefix_iff. exists (Js.nl ++ bodyText).
    unfold Legacy.marker_of, marker_of. now rewrite !append_assoc.
Qed.

(** ** commentDistDiffs of the earlier script *)

Lemma legacy_last_call_no_faults g markerText bodyText w :
  no_faults w ->
  posted_body
    (last_call (snd (run (Legacy.comment g markerText bodyText) w))) =
  Some (Legacy.marker_of markerText ++ bodyText).
Proof.
  intros Hw.
  destruct (upserts_after_full_scan_no_faults _ _ _ _ _
              (legacy_comment_run g markerText bodyText w) Hw)
    as [_ [_ Hlog]].
  apply last_call_app_snoc in Hlog. rewrite Hlog.
  destruct (last_page_match _ _) as [n|]; [destruct (Z.eqb n 0)|];
    reflexivity.
Qed.

Lemma commentDistDiff_read g d w text :
  files w (LegacyDist.workspacePath g ++ "/" ++ LegacyDist.file d) =
    Some text ->
  run (LegacyDist.commentDistDiff g d) w =
  run (try_catch
         (Legacy.comment (LegacyDist.picked g) (LegacyDist.marker d)
            (LegacyDist.diff_text g d text))
         (Legacy.comment (LegacyDist.picked g) (LegacyDist.marker d)
            (LegacyDist.fallback_text g d)))
      (after_read (LegacyDist.workspacePath g ++ "/" ++ LegacyDist.file d) w).
Proof.
  intros H. unfold LegacyDist.commentDistDiff.
  rewrite run_bind, run_await. unfold readFile. rewrite H. reflexivity.
Qed.

Lemma commentDistDiff_read_fails g d w :
  files w (LegacyDist.workspacePath g ++ "/" ++ LegacyDist.file d) = None ->
  run (LegacyDist.commentDistDiff g d) w =
  (Throw (FsError (LegacyDist.workspacePath g ++ "/" ++ LegacyDist.file d)),
   after_read (LegacyDist.workspacePath g ++ "/" ++ LegacyDist.file d) w).
Proof.
  intros H. unfold LegacyDist.commentDistDiff.
  rewrite run_bind, run_await. unfold readFile. rewrite H. reflexivity.
Qed.

(** X14: in the earlier script an empty diff file is posted as an empty
    fenced block: there is no placeholder.  With no request rejected, the
    body the first attempt posts for a file that reads as the empty string
    is the marker line, the title, the fence, an empty line, the closing
    fence and the commit line; when that attempt succeeds it is all the
    report of that diff does. *)
Theorem commentDistDiff_empty_file g d w :
  let path := LegacyDist.workspacePath g ++ "/" ++ LegacyDist.file d in
  files w path = Some "" ->
  no_faults w ->
  let attempt :=
    run (Legacy.comment (LegacyDist.picked g) (LegacyDist.marker d)
           (LegacyDist.diff_text g d "")) (after_read path w) in
  posted_body (last_call (snd attempt)) =
    Some ("<!-- " ++ LegacyDist.marker d ++ " -->" ++ Js.nl ++
          "## " ++ LegacyDist.title d ++ Js.nl ++
          "```diff" ++ Js.nl ++
          Js.nl ++
          "```" ++ Js.nl ++ Js.nl ++
          "SHA: " ++ LegacyDist.commit g ++ Js.nl) /\
  (fst attempt = Ok tt -> run (LegacyDist.commentDistDiff g d) w = attempt).
Proof.
  intros path Hread Hw attempt. split.
  - unfold attempt.
    rewrite (legacy_last_call_no_faults _ _ _ (after_read path w) Hw).
    f_equal. unfold Legacy.marker_of, LegacyDist.diff_text.
    rewrite !append_assoc. reflexivity.
  - intros Hok. rewrite (commentDistDiff_read g d w "" Hread), run_try_catch.
    fold path. fold attempt.
    destruct attempt as [[[]|e] w1]; [reflexivity | discriminate Hok].
Qed.

Lemma commentDistDiff_empty_file_witness :
  let g := {| LegacyDist.context := GithubActionContext.context Samples.ctx;
              LegacyDist.workspacePath := "work";
              LegacyDist.issueNumber := 7;
              LegacyDist.commit := "abc123" |} in
  let d := {| LegacyDist.file := "dist-js.diff";
              LegacyDist.title := "JavaScript changes to `dist`";
              LegacyDist.marker := "dist-diff-js" |} in
  let w := {| files := fun path =>
                         if String.eqb path "work/dist-js.diff" then Some ""
                         else None;
              GITHUB_RUN_ATTEMPT := None;
              comments := []; next_id := 1;
              paginate := Samples.pages 30; faults := []; log := [] |} in
  map IssueComment.body (comments (snd (run (LegacyDist.commentDistDiff g d) w)))
  = [Some ("<!-- dist-diff-js -->" ++ Js.nl ++
           "## JavaScript changes to `dist`" ++ Js.nl ++
           "```diff" ++ Js.nl ++ Js.nl ++ "```" ++ Js.nl ++ Js.nl ++
           "SHA: abc123" ++ Js.nl)].
Proof.
  intros g d w.
  destruct (commentDistDiff_empty_file g d w eq_refl eq_refl) as [_ H].
  rewrite H; reflexivity.
Defined.

Lemma for_of_cons g d rest w :
  run (LegacyDist.for_of g (d :: rest)) w =
  match run (LegacyDist.commentDistDiff g d) w with
  | (Ok _, w') => run (LegacyDist.for_of g rest) w'
  | (Throw e, w') => (Throw e, w')
  end.
Proof. cbn [LegacyDist.for_of]. now rewrite run_bind. Qed.

(** X15: [commentDistDiffs] of the earlier script stops at the first diff
    whose report throws.  If the first file cannot be read, it throws the
    error of that read and neither reads nor posts anything else; if the
    report of the first diff succeeds and the second file cannot be read, it
    throws the error of the second read and the third file is never
    read. *)
Theorem commentDistDiffs_stops_at_first_failure g w :
  let path name := LegacyDist.workspacePath g ++ "/" ++ name in
  let js := {| LegacyDist.file := "dist-js.diff";
               LegacyDist.title := "JavaScript changes to `dist`";
               LegacyDist.marker := "dist-diff-js" |} in
  (files w (path "dist-js.diff") = None ->
   run (LegacyDist.commentDistDiffs g) w =
     (Throw (FsError (path "dist-js.diff")),
      after_read (path "dist-js.diff") w)) /\
  (forall w1,
      run (LegacyDist.commentDistDiff g js) w = (Ok tt, w1) ->
      files w1 (path "dist-css.diff") = None ->
      run (LegacyDist.commentDistDiffs g) w =
        (Throw (FsError (path "dist-css.diff")),
         after_read (path "dist-css.diff") w1)).
Proof.
  intros path js. unfold LegacyDist.commentDistDiffs, LegacyDist.DIST_DIFFS.
  fold js. split.
  - intros Hnone. rewrite for_of_cons.
    erewrite commentDistDiff_read_fails; [reflexivity | exact Hnone].
  - intros w1 Hrun Hnone.
    rewrite for_of_cons, Hrun, for_of_cons.
    erewrite commentDistDiff_read_fails; [reflexivity | exact Hnone].
Qed.

Lemma commentDistDiffs_stops_at_first_failure_witness :
  let g := {| LegacyDist.context := GithubActionContext.context Samples.ctx;
              LegacyDist.workspacePath := "work";
              LegacyDist.issueNumber := 7;
              LegacyDist.commit := "abc123" |} in
  let w := Samples.world [] 1 30 [] in
  log (snd (run (LegacyDist.commentDistDiffs g) w)) =
    [ReadFile "work/dist-js.diff"].
Proof.
  intros g w.
  destruct (commentDistDiffs_stops_at_first_failure g w) as [H _].
  rewrite H; reflexivity.
Defined.

(** ** commentStats *)

Lemma renderTable_throws headers rows :
  Exists (fun row => length row <> length headers) rows ->
  renderTable headers rows =
  Throw (JsError
           "All rows must have the same number of elements as the headers."
           None).
Proof.
  intros H. unfold renderTable.
  assert (E : Js.every (fun row => Nat.eqb (length row) (length headers)) rows
              = false).
  { apply every_false_iff. eapply Exists_impl; [|exact H].
    simpl. intros row Hrow. now apply Nat.eqb_neq. }
  now rewrite E.
Qed.

Lemma renderTable_ok headers rows :
  Forall (fun row => length row = length headers) rows ->
  exists out, renderTable headers rows = Ok out.
Proof.
  intros H. unfold renderTable.
  assert (E : Js.every (fun row => Nat.eqb (length row) (length headers)) rows
              = true).
  { unfold Js.every. apply forallb_forall. intros row Hin.
    rewrite Forall_forall in H. now apply Nat.eqb_eq, H. }
  rewrite E. simpl. eexists. reflexivity.
Qed.

Section StatsFacts.

Variable join : string -> string -> string.
Variable URL : string -> string -> string.
Variable getFileSizes : string -> Async (list (list string)).
Variable all_getStats : Async (list (string * string)).

(** X16: if one of the rows [getFileSizes] returned does not have two
    cells, [commentStats] throws the error of [renderTable] as soon as both
    listings are in: the module stats are never asked for and nothing is
    requested from the GitHub client. *)
Theorem commentStats_malformed_row ctx issueNumber d w rows1 w1 rows2 w2 :
  getFileSizes
    (join (join (DiffComment.path d) "dist") "**/*.{css,js,mjs}") w =
    (Ok rows1, w1) ->
  getFileSizes
    (join (join (DiffComment.path d) "packages/govuk-frontend/dist/govuk")
       "*.{css,js,mjs}") w1 =
    (Ok rows2, w2) ->
  Exists (fun row => length row <> 2) (rows1 ++ rows2)%list ->
  run (Stats.commentStats join URL getFileSizes all_getStats ctx issueNumber
         d) w =
    (Throw (JsError
              "All rows must have the same number of elements as the headers."
              None), w2).
Proof.
  intros H1 H2 Hbad. unfold Stats.commentStats.
  rewrite run_bind, run_await, H1.
  rewrite run_bind, run_await, H2.
  rewrite run_bind. cbn [run].
  now rewrite (renderTable_throws ["File"; "Size"] _ Hbad).
Qed.

Lemma modulesRow_length reviewAppURL stat :
  length (Stats.modulesRow URL reviewAppURL stat) = 2.
Proof. now destruct stat. Qed.

(** X17: the table of modules always renders, every row [commentStats]
    builds for it having two cells; so when the rows of the file sizes have
    two cells each and the three awaited calls succeed, [commentStats] goes
    on to [comment] with the two sections, titles, tables and footer joined
    by line feeds, as the body text. *)
Theorem commentStats_posts_tables ctx issueNumber d w rows1 w1 rows2 w2
  stats w3 :
  getFileSizes
    (join (join (DiffComment.path d) "dist") "**/*.{css,js,mjs}") w =
    (Ok rows1, w1) ->
  getFileSizes
    (join (join (DiffComment.path d) "packages/govuk-frontend/dist/govuk")
       "*.{css,js,mjs}") w1 =
    (Ok rows2, w2) ->
  Forall (fun row => length row = 2) (rows1 ++ rows2)%list ->
  all_getStats w2 = (Ok stats, w3) ->
  let reviewAppURL := Stats.getReviewAppUrl URL issueNumber "/" in
  exists fileSizeTable modulesTable,
    renderTable ["File"; "Size"] (rows1 ++ rows2)%list = Ok fileSizeTable /\
    renderTable ["File"; "Size"]
      (map (Stats.modulesRow URL reviewAppURL) stats) = Ok modulesTable /\
    run (Stats.commentStats join URL getFileSizes all_getStats ctx issueNumber
         d) w =
      run (comment ctx issueNumber
             {| CommentText.markerText := DiffComment.markerText d;
                CommentText.titleText := DiffComment.titleText d;
                CommentText.bodyText :=
                  "### File sizes" ++ Js.nl ++ fileSizeTable ++ Js.nl ++
                  "### Modules" ++ Js.nl ++ modulesTable ++ Js.nl ++
                  "[View stats and visualisations on the review app](" ++
                  reviewAppURL ++ ")" |}) w3.
Proof.
  intros H1 H2 Hrows Hstats reviewAppURL.
  destruct (renderTable_ok ["File"; "Size"] _ Hrows) as [fileSizeTable Hf].
  assert (Hm : Forall (fun row => length row = 2)
                 (map (Stats.modulesRow URL reviewAppURL) stats)).
  { apply Forall_map, Forall_forall. intros stat _.
    apply modulesRow_length. }
  destruct (renderTable_ok ["File"; "Size"] _ Hm) as [modulesTable Hmod].
  exists fileSizeTable, modulesTable. split; [exact Hf|]. split; [exact Hmod|].
  unfold Stats.commentStats.
  rewrite run_bind, run_await, H1.
  rewrite run_bind, run_await, H2.
  rewrite run_bind. cbn [run]. rewrite Hf.
  rewrite run_bind, run_await, Hstats.
  rewrite run_bind. cbn [run]. fold reviewAppURL. rewrite Hmod.
  f_equal.
Qed.

End StatsFacts.

(** A pattern of two files, a stats call that gives one module; the first
    listing holds a row of three cells. *)
Lemma commentStats_malformed_row_witness :
  let join a b := a ++ "/" ++ b in
  let URL input base := base ++ input in
  let getFileSizes pattern : Async (list (list string)) :=
    fun w => (Ok [[pattern; "1 KiB"; "gzip"]], w) in
  let all_getStats : Async (list (string * string)) :=
    fun w => (Ok [("all.mjs", "2 KiB")], w) in
  let w := Samples.world [] 1 30 [] in
  run (Stats.commentStats join URL getFileSizes all_getStats Samples.ctx 7
         (Samples.diff "." "stats")) w =
    (Throw (JsError
              "All rows must have the same number of elements as the headers."
              None), w).
Proof.
  intros join URL getFileSizes all_getStats w.
  apply (commentStats_malformed_row join URL getFileSizes all_getStats
           Samples.ctx 7 (Samples.diff "." "stats") w _ w _ w
           eq_refl eq_refl).
  left. simpl. discriminate.
Defined.

Lemma commentStats_posts_tables_witness :
  let join a b := a ++ "/" ++ b in
  let URL input base := base ++ input in
  let getFileSizes pattern : Async (list (list string)) :=
    fun w => (Ok [[pattern; "1 KiB"]], w) in
  let all_getStats : Async (list (string * string)) :=
    fun w => (Ok [("all.mjs", "2 KiB")], w) in
  let w := Samples.world [] 1 30 [] in
  fst (run (Stats.commentStats join URL getFileSizes all_getStats Samples.ctx 7
              (Samples.diff "." "stats")) w) = Ok tt.
Proof.
  intros join URL getFileSizes all_getStats w.
  destruct (commentStats_posts_tables join URL getFileSizes all_getStats
              Samples.ctx 7 (Samples.diff "." "stats") w _ w _ w
              [("all.mjs", "2 KiB")] w
              eq_refl eq_refl) as [t1 [t2 [H1 [H2 H]]]].
  - repeat constructor.
  - reflexivity.
  - rewrite H. vm_compute in H1, H2.
    injection H1 as <-. injection H2 as <-. reflexivity.
Defined.

(** ** The link to the stats of a module *)

Lemma drop_app (a b : string) : Stats.drop (String.length a) (a ++ b) = b.
Proof. induction a as [|x a IH]; simpl; [now destruct b | exact IH]. Qed.

Lemma length_append (a b : string) :
  String.length (a ++ b) = String.length a + String.length b.
Proof. induction a as [|x a IH]; simpl; [reflexivity | now rewrite IH]. Qed.

Lemma prefix_within (a t u : string) :
  String.prefix a (t ++ u) = true ->
  String.length a <= String.length t ->
  String.prefix a t = true.
Proof.
  revert t. induction a as [|x a IH]; intros t H Hlen.
  - now destruct t.
  - destruct t as [|y t]; [simpl in Hlen; lia|].
    simpl in *. destruct (ascii_dec x y); [|discriminate].
    apply IH; [exact H | lia].
Qed.

Lemma replace_cons c text pattern replacement :
  String.prefix pattern (String c text) = false ->
  Stats.replace (String c text) pattern replacement =
  String c (Stats.replace text pattern replacement).
Proof. intros H. cbn [Stats.replace]. now rewrite H. Qed.

Lemma replace_at_start text pattern replacement :
  String.prefix pattern text = true ->
  Stats.replace text pattern replacement =
  replacement ++ Stats.drop (String.length pattern) text.
Proof. intros H. destruct text; cbn [Stats.replace]; now rewrite H. Qed.

Lemma replace_absent text pattern replacement :
  Js.includes text pattern = false ->
  Stats.replace text pattern replacement = text.
Proof.
  induction text as [|c text IH]; intros H.
  - rewrite includes_nil, orb_false_r in H. cbn [Stats.replace].
    now rewrite H.
  - rewrite includes_cons in H. apply orb_false_iff in H.
    destruct H as [Hp Hrest]. rewrite (replace_cons _ _ _ _ Hp).
    now rewrite IH.
Qed.

(** The first occurrence is the one replaced: [pattern], here written as
    [start] followed by its last character, does not occur in [pre]
    followed by [start]. *)
Lemma replace_first pre start last post replacement :
  let pattern := start ++ String last "" in
  Js.includes (pre ++ start) pattern = false ->
  Stats.replace (pre ++ pattern ++ post) pattern replacement =
  pre ++ replacement ++ post.
Proof.
  intros pattern. induction pre as [|c pre IH]; intros H.
  - change ("" ++ pattern ++ post) with (pattern ++ post).
    rewrite replace_at_start by apply prefix_append.
    now rewrite drop_app.
  - change ((String c pre) ++ start) with (String c (pre ++ start)) in H.
    rewrite includes_cons in H. apply orb_false_iff in H.
    destruct H as [Hp Hrest].
    change ((String c pre) ++ pattern ++ post)
      with (String c (pre ++ pattern ++ post)).
    rewrite replace_cons; [now rewrite IH|].
    destruct (String.prefix pattern (String c (pre ++ pattern ++ post)))
      eqn:E; [|reflexivity].
    exfalso.
    assert (Hshape : String c (pre ++ pattern ++ post) =
                     String c (pre ++ start) ++ (String last "" ++ post)).
    { unfold pattern. simpl. f_equal. now rewrite !append_assoc. }
    rewrite Hshape in E. apply prefix_within in E.
    + rewrite E in Hp. discriminate.
    + unfold pattern. simpl. rewrite !length_append. simpl. lia.
Qed.

(** X18: the link [commentStats] makes for a module replaces the first
    [mjs] of the module path by [html], wherever it stands.  For a path
    [stem.mjs] with no [mjs] before the extension the link is to
    [docs/stats/stem.html]; when [mjs] occurs earlier in the path, that
    occurrence is replaced and what follows it, the extension too, is kept;
    a path without [mjs] is kept whole. *)
Theorem modulesRow_stats_link URL reviewAppURL size :
  (forall stem,
      Js.includes (stem ++ ".mj") "mjs" = false ->
      Stats.modulesRow URL reviewAppURL (stem ++ ".mjs", size) =
        [ "[" ++ (stem ++ ".mjs") ++ "](" ++
          URL ("docs/stats/" ++ stem ++ ".html") reviewAppURL ++ ")";
          size ]) /\
  (forall pre post,
      Js.includes (pre ++ "mj") "mjs" = false ->
      Stats.modulesRow URL reviewAppURL (pre ++ "mjs" ++ post, size) =
        [ "[" ++ (pre ++ "mjs" ++ post) ++ "](" ++
          URL ("docs/stats/" ++ pre ++ "html" ++ post) reviewAppURL ++ ")";
          size ]) /\
  (forall modulePath,
      Js.includes modulePath "mjs" = false ->
      Stats.modulesRow URL reviewAppURL (modulePath, size) =
        [ "[" ++ modulePath ++ "](" ++
          URL ("docs/stats/" ++ modulePath) reviewAppURL ++ ")";
          size ]).
Proof.
  assert (Hgen : forall pre post,
             Js.includes (pre ++ "mj") "mjs" = false ->
             Stats.replace (pre ++ "mjs" ++ post) "mjs" "html" =
             pre ++ "html" ++ post).
  { intros pre post H. apply (replace_first pre "mj" "s"%char post "html" H). }
  split; [|split].
  - intros stem H. unfold Stats.modulesRow.
    assert (E : Stats.replace (stem ++ ".mjs") "mjs" "html" = stem ++ ".html").
    { pose proof (Hgen (stem ++ ".") "") as G.
      rewrite !append_assoc in G. simpl in G. apply G. exact H. }
    now rewrite E.
  - intros pre post H. unfold Stats.modulesRow. now rewrite (Hgen pre post H).
  - intros modulePath H. unfold Stats.modulesRow.
    now rewrite (replace_absent _ _ _ H).
Qed.

Lemma modulesRow_stats_link_witness :
  let URL input base := base ++ input in
  Stats.modulesRow URL "https://review/" ("components/mjs-tools/all.mjs", "1 KiB")
  = [ "[components/mjs-tools/all.mjs](https://review/docs/stats/components/html-tools/all.mjs)";
      "1 KiB" ].
Proof.
  intros URL.
  destruct (modulesRow_stats_link URL "https://review/" "1 KiB")
    as [_ [H _]].
  apply (H "components/" "-tools/all.mjs"). reflexivity.
Defined.
